(** * Location management and forecast aggregation of the weather server

    A shallow embedding of [server/api/full.js] (REST verbs, JSON bodies) and
    [server/api/test.js] (GET only, path parameters), and the properties of
    the location rules and of the forecast aggregation proved on it.

    Conventions of the embedding.
    - A JavaScript number is kept by the decimal text [String(n)] gives for
      it: this code observes of a number only whether it is falsy and how a
      template literal renders it.
    - [None] stands for both [undefined] and [null] where the code does not
      tell them apart (every such place tests truthiness or applies
      [|| null]).
    - The database is a pair of tables held as lists in the order a SELECT
      without ORDER BY reads them (inserted and updated rows go last), with
      the two SERIAL counters.  Every [pool.query] goes through
      [pool_query], which records the statement and lets the server refuse
      it ([db_fails]); a refused statement is the thrown error that the
      handlers turn into status 500.
    - Statement parameters carry the column types of the schema: an id is an
      integer, a zip is text, a coordinate is a number. *)

From Stdlib Require Import String Ascii List ZArith Bool Arith Lia Permutation.
Import ListNotations.
Local Open Scope list_scope.
Local Open Scope string_scope.

Set Implicit Arguments.

(** ** JavaScript values *)

Record number := mkNum { num_text : string }.

(** [!!n] for a number: false for [0], [-0] (both print as "0") and [NaN]. *)
Definition num_truthy (n : number) : bool :=
  negb (num_text n =? "0") && negb (num_text n =? "NaN").

(** [!!s] for a string: false for the empty string only. *)
Definition str_truthy (s : string) : bool :=
  match s with EmptyString => false | String _ _ => true end.

(** Truthiness of a field that is absent, null, or holds a value. *)
Definition truthy {A} (t : A -> bool) (v : option A) : bool :=
  match v with None => false | Some a => t a end.

(** [v || null] for such a field. *)
Definition or_null {A} (t : A -> bool) (v : option A) : option A :=
  if truthy t v then v else None.

(** [s.includes(sub)] *)
Definition includes (s sub : string) : bool :=
  match index 0 sub s with Some _ => true | None => false end.

(** What a [throw new Error(message)] or a rejected promise delivers to the
    enclosing [catch], against a normal return. *)
Inductive completion (A : Type) : Type :=
| Return (a : A)
| Throw (message : string).
Arguments Return {A} a.
Arguments Throw {A} message.

(** The projection [{ zip, lat, lon }] that [buildForecastUrl] destructures:
    a row of [SELECT zip, lat, lon FROM locations]. *)
Record loc := mkLoc {
  loc_zip : option string;
  loc_lat : option number;
  loc_lon : option number
}.

(** ** buildForecastUrl (full.js 38-49, test.js 37-47; the same text) *)

Section Builder.

(** [process.env.OPEN_WEATHER_API_KEY]: a string, or [undefined] when the
    variable is not set. *)
Variable API_KEY : option string.

Definition API_KEY_text : string :=
  match API_KEY with Some k => k | None => "undefined" end.

(** How a template literal renders a coordinate column: the number's
    text, or "null" for SQL NULL. *)
Definition coord_text (c : option number) : string :=
  match c with Some n => num_text n | None => "null" end.

Definition coord_url (lat lon : option number) : string :=
  "https://api.openweathermap.org/data/2.5/forecast?lat=" ++ coord_text lat
    ++ "&lon=" ++ coord_text lon
    ++ "&appid=" ++ API_KEY_text ++ "&units=metric".

Definition zip_url (zipCode : string) : string :=
  "https://api.openweathermap.org/data/2.5/forecast?zip=" ++ zipCode
    ++ "&appid=" ++ API_KEY_text ++ "&units=metric".

Definition buildForecastUrl (l : loc) : completion string :=
  if truthy num_truthy (loc_lat l) && truthy num_truthy (loc_lon l) then
    Return (coord_url (loc_lat l) (loc_lon l))
  else
    match loc_zip l with
    | Some zip =>
        if str_truthy zip then
          (* If zip does not include country, default to US *)
          let zipCode := if includes zip "," then zip else zip ++ ",us" in
          Return (zip_url zipCode)
        else Throw "Invalid location"
    | None => Throw "Invalid location"
    end.

End Builder.

(** ** The provider's response document *)

#[local] Set Warnings "-register-all".

(** A parsed JSON value.  The fields of an object are listed with distinct
    keys, as [JSON.parse] leaves them. *)
Inductive json : Type :=
| JNull
| JBool (b : bool)
| JNum (n : number)
| JStr (s : string)
| JArr (items : list json)
| JObj (fields : list (string * json)).

(** [!!v] *)
Definition json_truthy (v : json) : bool :=
  match v with
  | JNull => false
  | JBool b => b
  | JNum n => num_truthy n
  | JStr s => str_truthy s
  | JArr _ | JObj _ => true
  end.

(** [`${v}`]: arrays join their items with commas, printing null items as
    nothing; a plain object prints as "[object Object]". *)
Fixpoint ToString (v : json) : string :=
  match v with
  | JNull => "null"
  | JBool true => "true"
  | JBool false => "false"
  | JNum n => num_text n
  | JStr s => s
  | JArr items =>
      (fix join (l : list json) : string :=
         match l with
         | [] => ""
         | x :: rest =>
             (match x with JNull => "" | _ => ToString x end)
               ++ (match rest with [] => "" | _ :: _ => "," ++ join rest end)
         end) items
  | JObj _ => "[object Object]"
  end.

Fixpoint assoc (k : string) (fields : list (string * json)) : option json :=
  match fields with
  | [] => None
  | (k', v) :: rest => if k' =? k then Some v else assoc k rest
  end.

(** [v.k] for a value that is not null; [None] is [undefined].  Of the
    JSON values only an object has a property called city, name or country. *)
Definition get_prop (v : json) (k : string) : option json :=
  match v with
  | JObj fields => assoc k fields
  | _ => None
  end.

(** [v?.k] where [v] may be undefined or null. *)
Definition opt_chain (v : option json) (k : string) : option json :=
  match v with
  | None | Some JNull => None
  | Some o => get_prop o k
  end.

(** [v || null] where [v] may be undefined. *)
Definition json_or_null (v : option json) : json :=
  match v with
  | Some x => if json_truthy x then x else JNull
  | None => JNull
  end.

(** One element of the array the weather routes answer with.  A key that the
    object literal does not have is [None]. *)
Record forecast_result := mkResult {
  location : loc;
  place : option string;
  forecast : option json;
  error : option string
}.

Definition bind_completion {A B} (c : completion A) (k : A -> completion B)
  : completion B :=
  match c with
  | Return a => k a
  | Throw m => Throw m
  end.

(** ** The loop of the weather routes (full.js 152-166, test.js 194-209) *)

Section Aggregator.

Variable API_KEY : option string.

(** [axios.get(url)] for the request made in iteration [i] of the loop:
    it resolves with [response.data], or rejects with an error whose
    [message] is given. *)
Variable axios_get : nat -> string -> completion json.

(** The body of the inner [try]. *)
Definition forecast_try (i : nat) (l : loc) : completion forecast_result :=
  bind_completion (buildForecastUrl API_KEY l) (fun url =>
  bind_completion (axios_get i url) (fun data =>
  match data with
  | JNull => Throw "Cannot read properties of null (reading 'city')"
  | _ =>
      let city := get_prop data "city" in
      let cityName := json_or_null (opt_chain city "name") in
      let country := json_or_null (opt_chain city "country") in
      Return {| location := l;
                place := Some (ToString cityName
                                 ++ (if json_truthy country
                                     then ", " ++ ToString country else ""));
                forecast := Some data;
                error := None |}
  end)).

(** The inner [try] with its [catch]: the element pushed in iteration [i]. *)
Definition forecast_step (i : nat) (l : loc) : forecast_result :=
  match forecast_try i l with
  | Return r => r
  | Throw message =>
      {| location := l; place := None; forecast := None;
         error := Some message |}
  end.

(** [for (const loc of rows) { ... data.push(...) }], entered at iteration
    [i] with the array [data] built so far. *)
Fixpoint weather_loop (i : nat) (rows : list loc)
         (data : list forecast_result) : list forecast_result :=
  match rows with
  | [] => data
  | l :: rest => weather_loop (S i) rest (data ++ [forecast_step i l])%list
  end.

Definition aggregate (rows : list loc) : list forecast_result :=
  weather_loop 0 rows [].

End Aggregator.

(** ** The database (schema of initDB; full.js 23-35, test.js 21-35) *)

(** [users (id SERIAL PRIMARY KEY, username VARCHAR(100) UNIQUE NOT NULL)] *)
Record users_row := mkUser {
  users_id : Z;
  users_username : string
}.

(** [locations (id SERIAL PRIMARY KEY, user_id INTEGER REFERENCES users(id)
    ON DELETE CASCADE, zip VARCHAR(20), lat FLOAT, lon FLOAT)] *)
Record locations_row := mkLocation {
  locations_id : Z;
  locations_user_id : Z;
  locations_zip : option string;
  locations_lat : option number;
  locations_lon : option number
}.

Record store := mkStore {
  users : list users_row;
  locations : list locations_row;
  users_id_seq : Z;
  locations_id_seq : Z
}.

(** The statements the two files send, with their parameters. *)
Inductive statement : Type :=
| CREATE_TABLE_users
| CREATE_TABLE_locations
| INSERT_users (username : string)
| SELECT_id_FROM_users (username : string)
| SELECT_all_FROM_locations (user_id : Z)
| SELECT_zip_lat_lon_FROM_locations (user_id : Z)
| SELECT_COUNT_FROM_locations (user_id : Z)
| INSERT_locations (user_id : Z) (zip : option string)
                   (lat lon : option number)
| UPDATE_locations (zip : option string) (lat lon : option number) (id : Z)
| DELETE_FROM_locations (id : Z).

(** A statement that only reads rows. *)
Definition is_lookup (q : statement) : bool :=
  match q with
  | SELECT_id_FROM_users _ | SELECT_all_FROM_locations _
  | SELECT_zip_lat_lon_FROM_locations _ | SELECT_COUNT_FROM_locations _ => true
  | _ => false
  end.

(** A statement of [initDB]. *)
Definition is_schema_setup (q : statement) : bool :=
  match q with
  | CREATE_TABLE_users | CREATE_TABLE_locations => true
  | _ => false
  end.

(** What a handler runs against: the database, the statements sent so far
    (oldest first), and the module-level flag [dbInitialized] of test.js. *)
Record world := mkWorld {
  db : store;
  issued : list statement;
  dbInitialized : bool
}.

(** *** What each statement does to the tables *)

Definition project (r : locations_row) : loc :=
  {| loc_zip := locations_zip r; loc_lat := locations_lat r;
     loc_lon := locations_lon r |}.

Definition owned_by (user_id : Z) (r : locations_row) : bool :=
  (locations_user_id r =? user_id)%Z.

Definition named (username : string) (u : users_row) : bool :=
  users_username u =? username.

(** [INSERT INTO users (username) VALUES ($1) ON CONFLICT (username) DO
    NOTHING].  The sequence value is drawn before the conflict is seen, so
    it is spent either way. *)
Definition exec_INSERT_users (username : string) (s : store) : store :=
  {| users := if existsb (named username) (users s) then users s
              else (users s ++ [ {| users_id := users_id_seq s;
                                    users_username := username |} ])%list;
     locations := locations s;
     users_id_seq := (users_id_seq s + 1)%Z;
     locations_id_seq := locations_id_seq s |}.

(** [SELECT id FROM users WHERE username=$1]: the [rows]. *)
Definition exec_SELECT_id_FROM_users (username : string) (s : store)
  : list Z :=
  map users_id (filter (named username) (users s)).

(** [SELECT * FROM locations WHERE user_id=$1] *)
Definition exec_SELECT_all_FROM_locations (user_id : Z) (s : store)
  : list locations_row :=
  filter (owned_by user_id) (locations s).

(** [SELECT zip, lat, lon FROM locations WHERE user_id=$1] *)
Definition exec_SELECT_zip_lat_lon_FROM_locations (user_id : Z) (s : store)
  : list loc :=
  map project (filter (owned_by user_id) (locations s)).

(** [SELECT COUNT( * ) FROM locations WHERE user_id=$1], after [parseInt]. *)
Definition exec_SELECT_COUNT_FROM_locations (user_id : Z) (s : store) : nat :=
  length (filter (owned_by user_id) (locations s)).

(** [INSERT INTO locations (user_id, zip, lat, lon) VALUES ($1,$2,$3,$4)];
    a column the statement does not name is NULL. *)
Definition exec_INSERT_locations (user_id : Z) (zip : option string)
           (lat lon : option number) (s : store) : store :=
  {| users := users s;
     locations := (locations s ++
                     [ {| locations_id := locations_id_seq s;
                          locations_user_id := user_id;
                          locations_zip := zip;
                          locations_lat := lat;
                          locations_lon := lon |} ])%list;
     users_id_seq := users_id_seq s;
     locations_id_seq := (locations_id_seq s + 1)%Z |}.

Definition set_fields (zip : option string) (lat lon : option number)
           (id : Z) (r : locations_row) : locations_row :=
  if (locations_id r =? id)%Z then
    {| locations_id := locations_id r;
       locations_user_id := locations_user_id r;
       locations_zip := zip; locations_lat := lat; locations_lon := lon |}
  else r.

(** [UPDATE locations SET zip=$1, lat=$2, lon=$3 WHERE id=$4].  PostgreSQL
    writes the new version of an updated row after the rows it leaves
    alone, and a SELECT without ORDER BY reads the table in that order: the
    rows of another id keep their places, those of the id follow them. *)
Definition exec_UPDATE_locations (zip : option string)
           (lat lon : option number) (id : Z) (s : store) : store :=
  {| users := users s;
     locations :=
       (filter (fun r => negb (locations_id r =? id)%Z) (locations s)
          ++ map (set_fields zip lat lon id)
               (filter (fun r => (locations_id r =? id)%Z) (locations s)))%list;
     users_id_seq := users_id_seq s;
     locations_id_seq := locations_id_seq s |}.

(** [DELETE FROM locations WHERE id=$1] *)
Definition exec_DELETE_FROM_locations (id : Z) (s : store) : store :=
  {| users := users s;
     locations := filter (fun r => negb (locations_id r =? id)%Z)
                         (locations s);
     users_id_seq := users_id_seq s;
     locations_id_seq := locations_id_seq s |}.

(** The new tables of a statement.  [CREATE TABLE IF NOT EXISTS] leaves the
    rows of a table as they are. *)
Definition exec (q : statement) (s : store) : store :=
  match q with
  | INSERT_users username => exec_INSERT_users username s
  | INSERT_locations user_id zip lat lon =>
      exec_INSERT_locations user_id zip lat lon s
  | UPDATE_locations zip lat lon id => exec_UPDATE_locations zip lat lon id s
  | DELETE_FROM_locations id => exec_DELETE_FROM_locations id s
  | _ => s
  end.

(** ** Responses *)

Inductive body : Type :=
| Message (message : string)              (* [{ message }] *)
| Error (error : string)                  (* [{ error }] *)
| Rows (rows : list locations_row)        (* the rows of [SELECT *] *)
| Forecasts (data : list forecast_result)
| Greeting (msg : string).                (* [{ msg }] *)

Record response := mkResponse {
  status : nat;
  json_body : body
}.

(** [res.json(b)] *)
Definition res_json (b : body) : response :=
  {| status := 200; json_body := b |}.

(** [res.status(code).json({ error })] *)
Definition res_status_error (code : nat) (error : string) : response :=
  {| status := code; json_body := Error error |}.

(** ** Queries and handlers *)

(** An awaited computation: [None] is a rejected promise. *)
Definition M (A : Type) : Type := world -> option A * world.

Definition ret {A} (a : A) : M A := fun w => (Some a, w).

Definition bind {A B} (m : M A) (k : A -> M B) : M B :=
  fun w =>
    match m w with
    | (Some a, w') => k a w'
    | (None, w') => (None, w')
    end.

Notation "x <- m ;; k" := (bind m (fun x => k))
  (at level 61, m at next level, right associativity).
Notation "m ;;; k" := (bind m (fun _ => k))
  (at level 61, right associativity).

(** A route handler: the response sent and the world it leaves. *)
Definition handler : Type := world -> response * world.

Definition send (r : response) : handler := fun w => (r, w).

(** [try { ... } catch (err) { console.error(err);
    res.status(500).json({ error: 'internal server error' }) }] *)
Definition try_catch (m : M response) : handler :=
  fun w =>
    match m w with
    | (Some r, w') => (r, w')
    | (None, w') => (res_status_error 500 "internal server error", w')
    end.

Section Pool.

(** Whether the database refuses the statement sent as the [k]-th one
    (connection lost, a value the column does not take, ...). *)
Variable db_fails : nat -> statement -> bool.

(** [await pool.query(q, params)]; [rows] reads the result off the tables
    as they were when the statement ran. *)
Definition pool_query {A} (q : statement) (rows : store -> A) : M A :=
  fun w =>
    if db_fails (length (issued w)) q then
      (None, {| db := db w; issued := (issued w ++ [q])%list;
                dbInitialized := dbInitialized w |})
    else
      (Some (rows (db w)),
       {| db := exec q (db w); issued := (issued w ++ [q])%list;
          dbInitialized := dbInitialized w |}).

Definition no_rows (_ : store) : unit := tt.

End Pool.

(** *** server/api/full.js *)

Module Full.
Section Routes.

Variable API_KEY : option string.
Variable axios_get : nat -> string -> completion json.
Variable db_fails : nat -> statement -> bool.

Abbreviation query := (pool_query db_fails).

(** [app.post('/user')]; [username] is [req.body.username]. *)
Definition post_user (username : option string) : handler :=
  match username with
  | Some name =>
      if negb (str_truthy name) then
        send (res_status_error 400 "username required")
      else
        try_catch (
          query (INSERT_users name) no_rows ;;;
          ret (res_json (Message "user created or exists")))
  | None => send (res_status_error 400 "username required")
  end.

(** [app.get('/locations')]; [username] is [req.query.username]. *)
Definition get_locations (username : option string) : handler :=
  match username with
  | Some name =>
      if negb (str_truthy name) then
        send (res_status_error 400 "username required")
      else
        try_catch (
          userRes <- query (SELECT_id_FROM_users name)
                           (exec_SELECT_id_FROM_users name) ;;
          match userRes with
          | [] => ret (res_status_error 404 "user not found")
          | id :: _ =>
              locRes <- query (SELECT_all_FROM_locations id)
                              (exec_SELECT_all_FROM_locations id) ;;
              ret (res_json (Rows locRes))
          end)
  | None => send (res_status_error 400 "username required")
  end.

(** [app.post('/location')]; [p] holds the zip, lat and lon of the body,
    a zip being a string and a coordinate a number where the body has one. *)
Definition post_location (username : option string) (p : loc) : handler :=
  let zip := truthy str_truthy (loc_zip p) in
  let lat := truthy num_truthy (loc_lat p) in
  let lon := truthy num_truthy (loc_lon p) in
  match username with
  | Some name =>
      if negb (str_truthy name) then
        send (res_status_error 400 "username required")
      else if negb zip && negb (lat && lon) then
        send (res_status_error 400 "Either zip or lat/lon required")
      else if zip && (lat || lon) then
        send (res_status_error 400 "Provide only zip or lat/lon, not both")
      else
        try_catch (
          userRes <- query (SELECT_id_FROM_users name)
                           (exec_SELECT_id_FROM_users name) ;;
          match userRes with
          | [] => ret (res_status_error 404 "user not found")
          | id :: _ =>
              count <- query (SELECT_COUNT_FROM_locations id)
                             (exec_SELECT_COUNT_FROM_locations id) ;;
              if (5 <=? count)%nat then
                ret (res_status_error 400 "max 5 locations")
              else
                query (INSERT_locations id
                         (or_null str_truthy (loc_zip p))
                         (or_null num_truthy (loc_lat p))
                         (or_null num_truthy (loc_lon p))) no_rows ;;;
                ret (res_json (Message "location added"))
          end)
  | None => send (res_status_error 400 "username required")
  end.

(** [app.put('/location/:id')] *)
Definition put_location (id : Z) (p : loc) : handler :=
  let zip := truthy str_truthy (loc_zip p) in
  let lat := truthy num_truthy (loc_lat p) in
  let lon := truthy num_truthy (loc_lon p) in
  if negb zip && negb (lat && lon) then
    send (res_status_error 400 "Either zip or lat/lon required")
  else if zip && (lat || lon) then
    send (res_status_error 400 "Provide only zip or lat/lon, not both")
  else
    try_catch (
      query (UPDATE_locations (or_null str_truthy (loc_zip p))
                              (or_null num_truthy (loc_lat p))
                              (or_null num_truthy (loc_lon p)) id) no_rows ;;;
      ret (res_json (Message "location updated"))).

(** [app.delete('/location/:id')] *)
Definition delete_location (id : Z) : handler :=
  try_catch (
    query (DELETE_FROM_locations id) no_rows ;;;
    ret (res_json (Message "location deleted"))).

(** [app.get('/weather')] *)
Definition get_weather (username : option string) : handler :=
  match username with
  | Some name =>
      if negb (str_truthy name) then
        send (res_status_error 400 "username required")
      else
        try_catch (
          userRes <- query (SELECT_id_FROM_users name)
                           (exec_SELECT_id_FROM_users name) ;;
          match userRes with
          | [] => ret (res_status_error 404 "user not found")
          | id :: _ =>
              locRes <- query (SELECT_zip_lat_lon_FROM_locations id)
                              (exec_SELECT_zip_lat_lon_FROM_locations id) ;;
              ret (res_json (Forecasts (aggregate API_KEY axios_get locRes)))
          end)
  | None => send (res_status_error 400 "username required")
  end.

End Routes.
End Full.

(** *** server/api/test.js

    Every parameter is a path segment: a username or a zip is the segment's
    text, an id or a coordinate is the segment the database reads as a value
    of the column's type. *)

Module Test.
Section Routes.

Variable API_KEY : option string.
Variable axios_get : nat -> string -> completion json.
Variable db_fails : nat -> statement -> bool.

Abbreviation query := (pool_query db_fails).

(** [dbInitialized = true] *)
Definition set_dbInitialized : M unit :=
  fun w => (Some tt, {| db := db w; issued := issued w;
                        dbInitialized := true |}).

Definition initDB : M unit :=
  fun w =>
    if dbInitialized w then (Some tt, w)
    else
      (query CREATE_TABLE_users no_rows ;;;
       query CREATE_TABLE_locations no_rows ;;;
       set_dbInitialized) w.

(** [/api/hello] *)
Definition hello : handler :=
  send (res_json (Greeting "Hi from serverless Express!")).

(** [/api/user/create/:username] *)
Definition user_create (username : string) : handler :=
  try_catch (
    initDB ;;;
    query (INSERT_users username) no_rows ;;;
    ret (res_json (Message "user created or exists"))).

(** [/api/location/list/:username] *)
Definition location_list (username : string) : handler :=
  try_catch (
    initDB ;;;
    user <- query (SELECT_id_FROM_users username)
                  (exec_SELECT_id_FROM_users username) ;;
    match user with
    | [] => ret (res_status_error 404 "user not found")
    | id :: _ =>
        locs <- query (SELECT_all_FROM_locations id)
                      (exec_SELECT_all_FROM_locations id) ;;
        ret (res_json (Rows locs))
    end).

(** [/api/location/add/:username/zip/:zip] *)
Definition location_add_zip (username zip : string) : handler :=
  try_catch (
    initDB ;;;
    user <- query (SELECT_id_FROM_users username)
                  (exec_SELECT_id_FROM_users username) ;;
    match user with
    | [] => ret (res_status_error 404 "user not found")
    | id :: _ =>
        count <- query (SELECT_COUNT_FROM_locations id)
                       (exec_SELECT_COUNT_FROM_locations id) ;;
        if (5 <=? count)%nat then
          ret (res_status_error 400 "max 5 locations")
        else
          query (INSERT_locations id (Some zip) None None) no_rows ;;;
          ret (res_json (Message "location added"))
    end).

(** [/api/location/add/:username/lat/:lat/lon/:lon] *)
Definition location_add_lat_lon (username : string) (lat lon : number)
  : handler :=
  try_catch (
    initDB ;;;
    user <- query (SELECT_id_FROM_users username)
                  (exec_SELECT_id_FROM_users username) ;;
    match user with
    | [] => ret (res_status_error 404 "user not found")
    | id :: _ =>
        count <- query (SELECT_COUNT_FROM_locations id)
                       (exec_SELECT_COUNT_FROM_locations id) ;;
        if (5 <=? count)%nat then
          ret (res_status_error 400 "max 5 locations")
        else
          query (INSERT_locations id None (Some lat) (Some lon)) no_rows ;;;
          ret (res_json (Message "location added"))
    end).

(** [/api/location/update/:id/zip/:zip] *)
Definition location_update_zip (id : Z) (zip : string) : handler :=
  try_catch (
    initDB ;;;
    query (UPDATE_locations (Some zip) None None id) no_rows ;;;
    ret (res_json (Message "location updated"))).

(** [/api/location/update/:id/lat/:lat/lon/:lon] *)
Definition location_update_lat_lon (id : Z) (lat lon : number) : handler :=
  try_catch (
    initDB ;;;
    query (UPDATE_locations None (Some lat) (Some lon) id) no_rows ;;;
    ret (res_json (Message "location updated"))).

(** [/api/location/delete/:id] *)
Definition location_delete (id : Z) : handler :=
  try_catch (
    initDB ;;;
    query (DELETE_FROM_locations id) no_rows ;;;
    ret (res_json (Message "location deleted"))).

(** [/api/weather/:username] *)
Definition weather (username : string) : handler :=
  try_catch (
    initDB ;;;
    user <- query (SELECT_id_FROM_users username)
                  (exec_SELECT_id_FROM_users username) ;;
    match user with
    | [] => ret (res_status_error 404 "user not found")
    | id :: _ =>
        locs <- query (SELECT_zip_lat_lon_FROM_locations id)
                      (exec_SELECT_zip_lat_lon_FROM_locations id) ;;
        ret (res_json (Forecasts (aggregate API_KEY axios_get locs)))
    end).

End Routes.
End Test.

(** ** Vocabulary of the properties *)

(** The database accepts whatever statement it is sent, whenever. *)
Definition accepts_all (db_fails : nat -> statement -> bool) : Prop :=
  forall k q, db_fails k q = false.

Definition always_up : nat -> statement -> bool := fun _ _ => false.

(** The shape rule in the words of the specification, where a field is
    present when the payload supplies it: InvalidLocationShape is raised
    when the payload has neither a zip nor a complete coordinate pair, or
    has a zip together with a coordinate component. *)
Definition supplied {A} (v : option A) : bool :=
  match v with Some _ => true | None => false end.

Definition InvalidLocationShape_expected (p : loc) : bool :=
  (negb (supplied (loc_zip p))
     && negb (supplied (loc_lat p) && supplied (loc_lon p)))
  || (supplied (loc_zip p)
        && (supplied (loc_lat p) || supplied (loc_lon p))).

(** The two guards of [app.post('/location')] and [app.put('/location/:id')]
    taken together: whether the payload is answered with status 400 before
    any query is sent. *)
Definition shape_rejected (p : loc) : bool :=
  let zip := truthy str_truthy (loc_zip p) in
  let lat := truthy num_truthy (loc_lat p) in
  let lon := truthy num_truthy (loc_lon p) in
  (negb zip && negb (lat && lon)) || (zip && (lat || lon)).

(** The names of the query parameters of a request target, in order. *)
Fixpoint split_on (c : ascii) (s : string) (cur : string) : list string :=
  match s with
  | EmptyString => [cur]
  | String a rest =>
      if Ascii.eqb a c then cur :: split_on c rest ""
      else split_on c rest (cur ++ String a "")
  end.

Definition before (c : ascii) (s : string) : string :=
  match split_on c s "" with x :: _ => x | [] => "" end.

Definition query_names (url : string) : list string :=
  match split_on "?" url "" with
  | _ :: q :: _ => map (before "=") (split_on "&" q "")
  | _ => []
  end.

(** The statements a handler sends from world [w] are all lookups. *)
Definition only_lookups (h : handler) (w : world) : Prop :=
  exists qs, issued (snd (h w)) = (issued w ++ qs)%list
             /\ forallb is_lookup qs = true.

(** The first stored location with the given id. *)
Definition row (id : Z) (s : store) : option locations_row :=
  find (fun r => (locations_id r =? id)%Z) (locations s).

Definition stored (id : Z) (s : store) : bool :=
  existsb (fun r => (locations_id r =? id)%Z) (locations s).

(** The sequence of [locations.id] is ahead of every id in the table. *)
Definition fresh_ids (s : store) : Prop :=
  Forall (fun r => (locations_id r < locations_id_seq s)%Z) (locations s).


(** The same request sent [n] times in a row: the responses, oldest first,
    and the world left. *)
Fixpoint repeat_request (h : handler) (n : nat) (w : world)
  : list response * world :=
  match n with
  | O => ([], w)
  | S n' =>
      let (r, w1) := h w in
      let (rs, w2) := repeat_request h n' w1 in
      (r :: rs, w2)
  end.

(** ** Sample data *)

Definition equator : loc :=
  {| loc_zip := None; loc_lat := Some (mkNum "0");
     loc_lon := Some (mkNum "10") |}.

Definition zip_with_zero_lat : loc :=
  {| loc_zip := Some "94040"; loc_lat := Some (mkNum "0"); loc_lon := None |}.

Definition mountain_view : loc :=
  {| loc_zip := Some "94040"; loc_lat := None; loc_lon := None |}.

Definition palo_alto : loc :=
  {| loc_zip := None; loc_lat := Some (mkNum "37.4");
     loc_lon := Some (mkNum "-122.1") |}.

Definition tokyo : loc :=
  {| loc_zip := Some "100-0001,jp"; loc_lat := None; loc_lon := None |}.

Definition ann : users_row := {| users_id := 1; users_username := "ann" |}.

Definition ann_row (id : Z) (l : loc) : locations_row :=
  {| locations_id := id; locations_user_id := 1;
     locations_zip := loc_zip l; locations_lat := loc_lat l;
     locations_lon := loc_lon l |}.

(** Ann with three locations, in a process that has run [initDB]. *)
Definition ann_world : world :=
  {| db := {| users := [ann];
              locations := [ann_row 1 mountain_view; ann_row 2 tokyo;
                            ann_row 3 palo_alto];
              users_id_seq := 2; locations_id_seq := 4 |};
     issued := [];
     dbInitialized := true |}.

(** The same tables in a process that has not yet run [initDB]. *)
Definition ann_world_cold : world :=
  {| db := db ann_world; issued := []; dbInitialized := false |}.

Definition tokyo_doc : json :=
  JObj [("city", JObj [("name", JStr "Tokyo"); ("country", JStr "JP")]);
        ("list", JArr [])].

Definition palo_alto_doc : json :=
  JObj [("city", JObj [("name", JStr "Palo Alto"); ("country", JStr "US")]);
        ("list", JArr [])].

Definition mountain_view_doc : json :=
  JObj [("city", JObj [("name", JStr "Mountain View")]); ("list", JArr [])].

(** A provider that answers requests 0 and 2 and fails request 1. *)
Definition flaky_provider (i : nat) (url : string) : completion json :=
  match i with
  | 0 => Return mountain_view_doc
  | 1 => Throw "Request failed with status code 404"
  | _ => Return palo_alto_doc
  end.

(** A provider that answers every request with the same document. *)
Definition steady_provider (doc : json) (i : nat) (url : string)
  : completion json := Return doc.


(** The answer of the add routes to a user at the cap. *)
Definition LocationLimitExceeded (r : response) : Prop :=
  r = res_status_error 400 "max 5 locations".

(** From [w] to [w'] one location of the user was appended and nothing
    else changed in the tables. *)
Definition adds_one_location (user_id : Z) (w w' : world) : Prop :=
  exists r,
    locations (db w') = (locations (db w) ++ [r])%list
    /\ locations_user_id r = user_id
    /\ users (db w') = users (db w).

(** An add route that enforces the cap for the user in world [w]: it
    answers LocationLimitExceeded exactly when the user has 5 locations or
    more, and then stores nothing; with 4 or fewer it answers 'location
    added' and has stored one more location of the user. *)
Definition cap_enforced (h : handler) (user_id : Z) (w : world) : Prop :=
  let count := exec_SELECT_COUNT_FROM_locations user_id (db w) in
  (LocationLimitExceeded (fst (h w)) <-> 5 <= count)
  /\ (5 <= count -> db (snd (h w)) = db w)
  /\ (count <= 4 ->
      fst (h w) = res_json (Message "location added")
      /\ adds_one_location user_id w (snd (h w))
      /\ exec_SELECT_COUNT_FROM_locations user_id (db (snd (h w)))
         = S count).

Definition is_count (q : statement) : bool :=
  match q with SELECT_COUNT_FROM_locations _ => true | _ => false end.

(** An update route that answers 'location updated' from world [w] without
    having counted anyone's locations. *)
Definition update_uncapped (h : handler) (w : world) : Prop :=
  fst (h w) = res_json (Message "location updated")
  /\ exists qs, issued (snd (h w)) = (issued w ++ qs)%list
                /\ forallb (fun q => negb (is_count q)) qs = true.

(** Ann at the cap: five locations. *)
Definition ann_world_full : world :=
  {| db := {| users := [ann];
              locations := [ann_row 1 mountain_view; ann_row 2 tokyo;
                            ann_row 3 palo_alto; ann_row 4 mountain_view;
                            ann_row 5 tokyo];
              users_id_seq := 2; locations_id_seq := 6 |};
     issued := [];
     dbInitialized := true |}.

(** The two kinds of payload, and a row with its mode fields replaced. *)
Definition zip_payload (zip : string) : loc :=
  {| loc_zip := Some zip; loc_lat := None; loc_lon := None |}.

Definition coord_payload (lat lon : number) : loc :=
  {| loc_zip := None; loc_lat := Some lat; loc_lon := Some lon |}.





(** A route that, sent from [w], answers with the success message and
    leaves the database as it was, and answers with that same message from
    every other world. *)
Definition missing_id_tolerated (h : handler) (message : string) (w : world)
  : Prop :=
  fst (h w) = res_json (Message message)
  /\ db (snd (h w)) = db w
  /\ forall w', fst (h w') = res_json (Message message).

(** A route that is read-only from world [w]: every statement it sends is
    a lookup, and the users and locations records are as before. *)
Definition read_only (h : handler) (w : world) : Prop :=
  only_lookups h w
  /\ users (db (snd (h w))) = users (db w)
  /\ locations (db (snd (h w))) = locations (db w).

(** The same, except that the lookups may come after statements of
    [initDB], and only in a process that has not completed [initDB]. *)
Definition read_only_after_setup (h : handler) (w : world) : Prop :=
  (exists pre qs,
      issued (snd (h w)) = (issued w ++ pre ++ qs)%list
      /\ forallb is_schema_setup pre = true
      /\ forallb is_lookup qs = true
      /\ (dbInitialized w = true -> pre = []))
  /\ users (db (snd (h w))) = users (db w)
  /\ locations (db (snd (h w))) = locations (db w).

(** The two lookups and the aggregation, as both weather routes run them
    inside their [try]. *)
Definition weather_body (API_KEY : option string)
           (axios_get : nat -> string -> completion json)
           (db_fails : nat -> statement -> bool) (name : string)
  : M response :=
  userRes <- pool_query db_fails (SELECT_id_FROM_users name)
                        (exec_SELECT_id_FROM_users name) ;;
  match userRes with
  | [] => ret (res_status_error 404 "user not found")
  | id :: _ =>
      locRes <- pool_query db_fails (SELECT_zip_lat_lon_FROM_locations id)
                           (exec_SELECT_zip_lat_lon_FROM_locations id) ;;
      ret (res_json (Forecasts (aggregate API_KEY axios_get locRes)))
  end.

(** ** The routing tables

    What [app.post], [app.get], [app.put] and [app.delete] register: a
    request of each file, and the handler that serves it. *)

Inductive full_request : Type :=
| POST_user (username : option string)
| GET_locations (username : option string)
| POST_location (username : option string) (p : loc)
| PUT_location (id : Z) (p : loc)
| DELETE_location (id : Z)
| GET_weather (username : option string).

Inductive test_request : Type :=
| GET_api_hello
| GET_user_create (username : string)
| GET_location_list (username : string)
| GET_location_add_zip (username zip : string)
| GET_location_add_lat_lon (username : string) (lat lon : number)
| GET_location_update_zip (id : Z) (zip : string)
| GET_location_update_lat_lon (id : Z) (lat lon : number)
| GET_location_delete (id : Z)
| GET_api_weather (username : string).

Definition full_app (API_KEY : option string)
           (axios_get : nat -> string -> completion json)
           (db_fails : nat -> statement -> bool) (r : full_request)
  : handler :=
  match r with
  | POST_user username => Full.post_user db_fails username
  | GET_locations username => Full.get_locations db_fails username
  | POST_location username p => Full.post_location db_fails username p
  | PUT_location id p => Full.put_location db_fails id p
  | DELETE_location id => Full.delete_location db_fails id
  | GET_weather username =>
      Full.get_weather API_KEY axios_get db_fails username
  end.

Definition test_app (API_KEY : option string)
           (axios_get : nat -> string -> completion json)
           (db_fails : nat -> statement -> bool) (r : test_request)
  : handler :=
  match r with
  | GET_api_hello => Test.hello
  | GET_user_create username => Test.user_create db_fails username
  | GET_location_list username => Test.location_list db_fails username
  | GET_location_add_zip username zip =>
      Test.location_add_zip db_fails username zip
  | GET_location_add_lat_lon username lat lon =>
      Test.location_add_lat_lon db_fails username lat lon
  | GET_location_update_zip id zip =>
      Test.location_update_zip db_fails id zip
  | GET_location_update_lat_lon id lat lon =>
      Test.location_update_lat_lon db_fails id lat lon
  | GET_location_delete id => Test.location_delete db_fails id
  | GET_api_weather username =>
      Test.weather API_KEY axios_get db_fails username
  end.

(** Requests served one after another, each to completion: the responses,
    oldest first, and the world left. *)
Fixpoint serve_all {R} (app : R -> handler) (requests : list R) (w : world)
  : list response * world :=
  match requests with
  | [] => ([], w)
  | r :: rest =>
      let (res, w1) := app r w in
      let (ress, w2) := serve_all app rest w1 in
      (res :: ress, w2)
  end.

(** ** Startup of full.js (174-188) *)

Module Startup.

(** [initDB] of full.js: the two statements, with no flag. *)
Definition initDB (db_fails : nat -> statement -> bool) : M unit :=
  pool_query db_fails CREATE_TABLE_users no_rows ;;;
  pool_query db_fails CREATE_TABLE_locations no_rows.

(** How the start of the process ends: listening on a port (the text of
    [process.env.PORT], or the number 3001), loaded without listening, or
    [process.exit(1)]. *)
Inductive outcome : Type :=
| Listening (PORT : string + nat)
| Loaded
| Exited (code : nat).

(** [process.env.PORT || 3001] *)
Definition port (PORT : option string) : string + nat :=
  match or_null str_truthy PORT with
  | Some p => inl p
  | None => inr 3001
  end.

(** The async function that full.js calls at once; the three option
    arguments are the environment variables it reads.  [listen_throws]
    tells whether [app.listen(PORT, ...)] throws before it returns (a port
    outside 0..65535, say): it is called inside the [try], so that throw
    reaches the [catch] like a failure of [initDB].  An error that the
    server emits later is not a throw of this function. *)
Definition main (db_fails : nat -> statement -> bool)
           (listen_throws : string + nat -> bool)
           (VERCEL LAMBDA_TASK_ROOT PORT : option string)
  : world -> outcome * world :=
  fun w =>
    match initDB db_fails w with
    | (Some _, w') =>
        if negb (truthy str_truthy VERCEL)
           && negb (truthy str_truthy LAMBDA_TASK_ROOT)
        then
          if listen_throws (port PORT) then (Exited 1, w')
          else (Listening (port PORT), w')
        else (Loaded, w')
    | (None, w') => (Exited 1, w')
    end.

End Startup.

(** ** Vocabulary of the properties of the routes *)

(** The database refuses whatever statement it is sent. *)
Definition refuses_all (db_fails : nat -> statement -> bool) : Prop :=
  forall k q, db_fails k q = true.

Definition always_down : nat -> statement -> bool := fun _ _ => true.

Definition is_INSERT_users (q : statement) : bool :=
  match q with INSERT_users _ => true | _ => false end.

Definition is_locations_write (q : statement) : bool :=
  match q with
  | INSERT_locations _ _ _ _ | UPDATE_locations _ _ _ _
  | DELETE_FROM_locations _ => true
  | _ => false
  end.

Definition is_write (q : statement) : bool :=
  is_INSERT_users q || is_locations_write q.

(** What the routes have checked before they send a write: an insert into
    locations is for a user that was just looked up and counted below 5. *)
Definition permitted (q : statement) (s : store) : Prop :=
  match q with
  | INSERT_locations user_id _ _ _ =>
      exec_SELECT_COUNT_FROM_locations user_id s < 5
      /\ In user_id (map users_id (users s))
  | _ => True
  end.

(** From [w] the route changes the tables by at most one statement, a write
    it was permitted, and only when it answers with status 200. *)
Definition single_write (h : handler) (w : world) : Prop :=
  db (snd (h w)) = db w
  \/ exists q,
       is_write q = true
       /\ permitted q (db w)
       /\ status (fst (h w)) = 200
       /\ db (snd (h w)) = exec q (db w).

(** No user has more than five locations. *)
Definition within_cap (s : store) : Prop :=
  forall user_id, exec_SELECT_COUNT_FROM_locations user_id s <= 5.

(** The keys: ids are distinct and behind their sequence in both tables,
    and usernames are distinct. *)
Definition keys_distinct (s : store) : Prop :=
  NoDup (map locations_id (locations s))
  /\ fresh_ids s
  /\ NoDup (map users_id (users s))
  /\ Forall (fun u => (users_id u < users_id_seq s)%Z) (users s)
  /\ NoDup (map users_username (users s)).

(** Every location belongs to a stored user. *)
Definition owners_exist (s : store) : Prop :=
  Forall (fun r => In (locations_user_id r) (map users_id (users s)))
         (locations s).

(** An empty database, in a process that has not run [initDB]. *)
Definition empty_world : world :=
  {| db := {| users := []; locations := [];
              users_id_seq := 1; locations_id_seq := 1 |};
     issued := [];
     dbInitialized := false |}.

(** What a request of full.js may touch: creating a user leaves the
    locations alone, the location writes leave the users alone, and the two
    reads leave the whole database alone. *)
Definition full_frame (r : full_request) (s s' : store) : Prop :=
  match r with
  | POST_user _ => locations s' = locations s
                   /\ locations_id_seq s' = locations_id_seq s
  | GET_locations _ | GET_weather _ => s' = s
  | POST_location _ _ | PUT_location _ _ | DELETE_location _ =>
      users s' = users s /\ users_id_seq s' = users_id_seq s
  end.

Definition test_frame (r : test_request) (s s' : store) : Prop :=
  match r with
  | GET_user_create _ => locations s' = locations s
                         /\ locations_id_seq s' = locations_id_seq s
  | GET_api_hello | GET_location_list _ | GET_api_weather _ => s' = s
  | _ => users s' = users s /\ users_id_seq s' = users_id_seq s
  end.

(** The request of full.js that asks for the same thing as a request of
    test.js.  full.js has no route like [/api/hello]: that request has no
    counterpart, [passes_full_guards] is false of it, and what it is given
    here is used nowhere. *)
Definition as_full_request (r : test_request) : full_request :=
  match r with
  | GET_api_hello => GET_locations None
  | GET_user_create username => POST_user (Some username)
  | GET_location_list username => GET_locations (Some username)
  | GET_location_add_zip username zip =>
      POST_location (Some username) (zip_payload zip)
  | GET_location_add_lat_lon username lat lon =>
      POST_location (Some username) (coord_payload lat lon)
  | GET_location_update_zip id zip => PUT_location id (zip_payload zip)
  | GET_location_update_lat_lon id lat lon =>
      PUT_location id (coord_payload lat lon)
  | GET_location_delete id => DELETE_location id
  | GET_api_weather username => GET_weather (Some username)
  end.

(** Whether the guards of full.js let that request through: a non-empty
    username, a non-empty zip, non-zero coordinates. *)
Definition passes_full_guards (r : test_request) : bool :=
  match r with
  | GET_api_hello => false
  | GET_user_create username | GET_location_list username
  | GET_api_weather username => str_truthy username
  | GET_location_add_zip username zip =>
      str_truthy username && str_truthy zip
  | GET_location_add_lat_lon username lat lon =>
      str_truthy username && (num_truthy lat && num_truthy lon)
  | GET_location_update_zip _ zip => str_truthy zip
  | GET_location_update_lat_lon _ lat lon => num_truthy lat && num_truthy lon
  | GET_location_delete _ => true
  end.

(** The answer to a username that no user carries: status 404, nothing
    written, and no statement sent after the lookup of the user (which, in
    test.js, [initDB] may precede). *)
Definition not_found (h : handler) (username : string) (w : world) : Prop :=
  fst (h w) = res_status_error 404 "user not found"
  /\ db (snd (h w)) = db w
  /\ exists pre,
       forallb is_schema_setup pre = true
       /\ issued (snd (h w))
          = (issued w ++ pre ++ [SELECT_id_FROM_users username])%list.

(** The answer of a route whose first statement is refused: status 500 with
    the fixed text, nothing written, the flag of [initDB] as it was, and no
    second statement. *)
Definition unavailable (h : handler) (w : world) : Prop :=
  fst (h w) = res_status_error 500 "internal server error"
  /\ db (snd (h w)) = db w
  /\ dbInitialized (snd (h w)) = dbInitialized w
  /\ exists q, issued (snd (h w)) = (issued w ++ [q])%list.

(** A delete route that, from [w], answers 'location deleted', leaves no
    location of that id, and leaves every location of another id alone. *)
Definition deleted (h : handler) (id : Z) (w : world) : Prop :=
  fst (h w) = res_json (Message "location deleted")
  /\ stored id (db (snd (h w))) = false
  /\ forall other, other <> id ->
       row other (db (snd (h w))) = row other (db w).

(** An update route that, from [w], leaves every location of another id
    alone, and keeps the locations' ids each with its owner: the same pairs
    as before, in whatever order the table now lists them. *)
Definition update_frame (h : handler) (id : Z) (w : world) : Prop :=
  (forall other, other <> id ->
     row other (db (snd (h w))) = row other (db w))
  /\ Permutation
       (map (fun r => (locations_id r, locations_user_id r))
            (locations (db (snd (h w)))))
       (map (fun r => (locations_id r, locations_user_id r))
            (locations (db w))).

(** From [w], the delete takes back what the add stored: both tables are
    as they were before the add. *)
Definition undone (add del : handler) (w : world) : Prop :=
  locations (db (snd (del (snd (add w))))) = locations (db w)
  /\ users (db (snd (del (snd (add w))))) = users (db w).

(** An element of the weather array is a forecast with its place, or an
    error, never both and never neither. *)
Definition forecast_xor_error (r : forecast_result) : Prop :=
  (error r = None /\ place r <> None /\ forecast r <> None)
  \/ (error r <> None /\ place r = None /\ forecast r = None).

(** A provider that differs from [flaky_provider] on the first request. *)
Definition other_provider (i : nat) (url : string) : completion json :=
  match i with
  | 0 => Throw "getaddrinfo ENOTFOUND api.openweathermap.org"
  | _ => flaky_provider i url
  end.

(** The answer of a guard of full.js: status 400 with the given text, and
    the world as it was, no statement sent. *)
Definition refused_by_guard (h : handler) (error : string) (w : world)
  : Prop :=
  h w = (res_status_error 400 error, w).

(** Whether the route of a test.js request goes to the database: all do but
    [/api/hello]. *)
Definition uses_database (r : test_request) : bool :=
  match r with GET_api_hello => false | _ => true end.

(** The answer of [/api/hello], whatever the state: the greeting with status
    200, and the world as it was, no statement sent and no flag touched. *)
Definition greets (h : handler) (w : world) : Prop :=
  h w = (res_json (Greeting "Hi from serverless Express!"), w).

(** A listener that never throws, and one that refuses every port. *)
Definition listens : string + nat -> bool := fun _ => false.

Definition port_refused : string + nat -> bool := fun _ => true.

(** * Properties *)

#[local] Arguments Nat.leb : simpl never.

(** ** Running a handler while the database accepts every statement *)

Lemma always_up_accepts : accepts_all always_up.
Proof. intros k q. reflexivity. Qed.

Lemma pool_query_accepted {A} db_fails (q : statement) (rows : store -> A) w :
  accepts_all db_fails ->
  pool_query db_fails q rows w =
  (Some (rows (db w)),
   {| db := exec q (db w); issued := (issued w ++ [q])%list;
      dbInitialized := dbInitialized w |}).
Proof. intros Hup. unfold pool_query. now rewrite Hup. Qed.

Lemma initDB_accepted db_fails w :
  accepts_all db_fails ->
  exists pre,
    Test.initDB db_fails w =
    (Some tt, {| db := db w; issued := (issued w ++ pre)%list;
                 dbInitialized := true |})
    /\ forallb is_schema_setup pre = true
    /\ (dbInitialized w = true -> pre = []).
Proof.
  intros Hup. unfold Test.initDB.
  destruct (dbInitialized w) eqn:Hinit.
  - exists []. rewrite app_nil_r. destruct w; simpl in *; subst. auto.
  - exists [CREATE_TABLE_users; CREATE_TABLE_locations].
    unfold bind. rewrite pool_query_accepted by assumption.
    rewrite pool_query_accepted by assumption. simpl.
    rewrite <- app_assoc. simpl. repeat split. discriminate.
Qed.

(** Unfolds a handler down to its queries and runs those that are accepted. *)
Ltac run_queries Hup :=
  unfold try_catch, bind, ret, send;
  repeat (rewrite (pool_query_accepted _ _ _ Hup); cbn [fst snd db issued]).

(** ** The aggregation loop *)

Section AggregatorFacts.

Variable API_KEY : option string.
Variable axios_get : nat -> string -> completion json.

Abbreviation step := (forecast_step API_KEY axios_get).
Abbreviation loop := (weather_loop API_KEY axios_get).

Lemma forecast_step_location i l : location (step i l) = l.
Proof.
  unfold forecast_step, forecast_try, bind_completion.
  destruct (buildForecastUrl API_KEY l) as [url|m]; [|reflexivity].
  destruct (axios_get i url) as [data|m]; [|reflexivity].
  destruct data; reflexivity.
Qed.

(** The loop only ever appends to the array it was entered with. *)
Lemma weather_loop_acc rows : forall i data,
  loop i rows data = (data ++ loop i rows [])%list.
Proof.
  induction rows as [|l rest IH]; intros i data; simpl.
  - now rewrite app_nil_r.
  - rewrite IH. rewrite (IH (S i) [step i l]).
    now rewrite <- app_assoc.
Qed.


Lemma weather_loop_locations rows : forall i data,
  map location (loop i rows data) = (map location data ++ rows)%list.
Proof.
  induction rows as [|l rest IH]; intros i data; simpl.
  - now rewrite app_nil_r.
  - rewrite IH, map_app. simpl. rewrite forecast_step_location.
    now rewrite <- app_assoc.
Qed.





End AggregatorFacts.

(** ** The weather routes *)

(** What the weather routes answer when the user exists and both lookups
    are accepted: the aggregation of the user's rows. *)
Lemma get_weather_found API_KEY axios_get db_fails name id rest w :
  accepts_all db_fails ->
  str_truthy name = true ->
  exec_SELECT_id_FROM_users name (db w) = id :: rest ->
  fst (Full.get_weather API_KEY axios_get db_fails (Some name) w) =
  res_json (Forecasts (aggregate API_KEY axios_get
                         (exec_SELECT_zip_lat_lon_FROM_locations id (db w)))).
Proof.
  intros Hup Hname Huser. unfold Full.get_weather. rewrite Hname. simpl.
  run_queries Hup. simpl. rewrite Huser.
  run_queries Hup. reflexivity.
Qed.

Lemma weather_found API_KEY axios_get db_fails name id rest w :
  accepts_all db_fails ->
  exec_SELECT_id_FROM_users name (db w) = id :: rest ->
  fst (Test.weather API_KEY axios_get db_fails name w) =
  res_json (Forecasts (aggregate API_KEY axios_get
                         (exec_SELECT_zip_lat_lon_FROM_locations id (db w)))).
Proof.
  intros Hup Huser. unfold Test.weather, try_catch, bind.
  destruct (initDB_accepted w Hup) as (pre & -> & _).
  rewrite (pool_query_accepted _ _ _ Hup). simpl. rewrite Huser.
  rewrite (pool_query_accepted _ _ _ Hup). reflexivity.
Qed.



(** The array of the sample: forecasts for rows 1 and 3, the provider's
    message for row 2, in the order of the rows. *)
Example aggregate_sample :
  aggregate (Some "k") flaky_provider [mountain_view; tokyo; palo_alto] =
  [ {| location := mountain_view; place := Some "Mountain View";
       forecast := Some mountain_view_doc; error := None |};
    {| location := tokyo; place := None; forecast := None;
       error := Some "Request failed with status code 404" |};
    {| location := palo_alto; place := Some "Palo Alto, US";
       forecast := Some palo_alto_doc; error := None |} ].
Proof. reflexivity. Qed.

(** ** Place composition *)


Lemma str_truthy_nonempty s : s <> "" -> str_truthy s = true.
Proof. destruct s; [congruence | reflexivity]. Qed.






Example place_city_only :
  place (forecast_step (Some "k") (steady_provider mountain_view_doc) 0
           mountain_view) = Some "Mountain View".
Proof. reflexivity. Qed.

Example place_nothing_known :
  place (forecast_step (Some "k") (steady_provider (JObj [])) 0 mountain_view)
  = Some "null".
Proof. reflexivity. Qed.

(** A country without a city name is appended to the text "null". *)
Example place_country_only :
  place (forecast_step (Some "k")
           (steady_provider (JObj [("city", JObj [("country", JStr "JP")])]))
           0 mountain_view)
  = Some "null, JP".
Proof. reflexivity. Qed.


(** A body that is the JSON value null is answered like a failed request. *)
Example null_document :
  forecast_step (Some "k") (steady_provider JNull) 0 mountain_view =
  {| location := mountain_view; place := None; forecast := None;
     error := Some "Cannot read properties of null (reading 'city')" |}.
Proof. reflexivity. Qed.

(** ** The request target *)

Section BuilderFacts.

Variable API_KEY : option string.

Lemma buildForecastUrl_coordinates zip lat lon :
  num_truthy lat = true -> num_truthy lon = true ->
  buildForecastUrl API_KEY
    {| loc_zip := zip; loc_lat := Some lat; loc_lon := Some lon |}
  = Return (coord_url API_KEY (Some lat) (Some lon)).
Proof.
  intros Hlat Hlon. unfold buildForecastUrl. simpl.
  now rewrite Hlat, Hlon.
Qed.

Lemma buildForecastUrl_zip l zip :
  truthy num_truthy (loc_lat l) && truthy num_truthy (loc_lon l) = false ->
  loc_zip l = Some zip -> zip <> "" ->
  buildForecastUrl API_KEY l
  = Return (zip_url API_KEY (if includes zip "," then zip else zip ++ ",us")).
Proof.
  intros Hno Hzip Hne. unfold buildForecastUrl.
  now rewrite Hno, Hzip, (str_truthy_nonempty Hne).
Qed.

Lemma buildForecastUrl_invalid l :
  truthy num_truthy (loc_lat l) && truthy num_truthy (loc_lon l) = false ->
  truthy str_truthy (loc_zip l) = false ->
  buildForecastUrl API_KEY l = Throw "Invalid location".
Proof.
  intros Hno Hzip. unfold buildForecastUrl. rewrite Hno.
  destruct (loc_zip l) as [zip|]; [|reflexivity].
  simpl in Hzip. now rewrite Hzip.
Qed.

(** C4.  A stored location on the equator, latitude 0 and longitude 10
    with no zip, has both coordinates and yet gets no coordinate-mode
    target: the builder throws 'Invalid location', because it tests the
    coordinates for truthiness and 0 is falsy. *)
Theorem buildForecastUrl_zero_coordinate :
  supplied (loc_lat equator) && supplied (loc_lon equator) = true
  /\ buildForecastUrl API_KEY equator = Throw "Invalid location".
Proof. split; reflexivity. Qed.

End BuilderFacts.

Example url_zip_default_country :
  buildForecastUrl (Some "k") mountain_view =
  Return "https://api.openweathermap.org/data/2.5/forecast?zip=94040,us&appid=k&units=metric".
Proof. reflexivity. Qed.

Example url_zip_with_country :
  buildForecastUrl (Some "k")
    {| loc_zip := Some "94040,jp"; loc_lat := None; loc_lon := None |} =
  Return "https://api.openweathermap.org/data/2.5/forecast?zip=94040,jp&appid=k&units=metric".
Proof. reflexivity. Qed.

Example url_coordinates :
  buildForecastUrl (Some "k") palo_alto =
  Return "https://api.openweathermap.org/data/2.5/forecast?lat=37.4&lon=-122.1&appid=k&units=metric"
  /\ query_names (coord_url (Some "k") (loc_lat palo_alto) (loc_lon palo_alto))
     = ["lat"; "lon"; "appid"; "units"].
Proof. split; reflexivity. Qed.

(** The row of the equator is one the routes themselves store:
    [/api/location/add/ann/lat/0/lon/10] adds it, and the weather route then
    answers for it with the builder's error. *)
Example equator_end_to_end :
  let w1 := snd (Test.location_add_lat_lon always_up "ann"
                   (mkNum "0") (mkNum "10")
                   {| db := {| users := [ann]; locations := [];
                               users_id_seq := 2; locations_id_seq := 1 |};
                      issued := []; dbInitialized := true |}) in
  fst (Test.weather (Some "k") (steady_provider tokyo_doc) always_up "ann" w1)
  = res_json (Forecasts [ {| location := equator; place := None;
                             forecast := None;
                             error := Some "Invalid location" |} ]).
Proof. reflexivity. Qed.

(** ** The shape rule *)

Section ShapeFacts.

Variable db_fails : nat -> statement -> bool.

(** The guards answer before any query: the world is left as it was. *)
Lemma post_location_rejected name p w :
  str_truthy name = true ->
  shape_rejected p = true ->
  Full.post_location db_fails (Some name) p w =
  (res_status_error 400
     (if negb (truthy str_truthy (loc_zip p))
      then "Either zip or lat/lon required"
      else "Provide only zip or lat/lon, not both"), w).
Proof.
  intros Hname Hrej. unfold Full.post_location, shape_rejected in *.
  rewrite Hname. simpl.
  destruct (truthy str_truthy (loc_zip p)),
           (truthy num_truthy (loc_lat p)),
           (truthy num_truthy (loc_lon p)); simpl in *;
    try discriminate; reflexivity.
Qed.

Lemma put_location_rejected id p w :
  shape_rejected p = true ->
  Full.put_location db_fails id p w =
  (res_status_error 400
     (if negb (truthy str_truthy (loc_zip p))
      then "Either zip or lat/lon required"
      else "Provide only zip or lat/lon, not both"), w).
Proof.
  intros Hrej. unfold Full.put_location, shape_rejected in *.
  destruct (truthy str_truthy (loc_zip p)),
           (truthy num_truthy (loc_lat p)),
           (truthy num_truthy (loc_lon p)); simpl in *;
    try discriminate; reflexivity.
Qed.

Lemma shape_accepted_guards p :
  shape_rejected p = false ->
  negb (truthy str_truthy (loc_zip p))
    && negb (truthy num_truthy (loc_lat p)
             && truthy num_truthy (loc_lon p)) = false
  /\ truthy str_truthy (loc_zip p)
     && (truthy num_truthy (loc_lat p)
         || truthy num_truthy (loc_lon p)) = false.
Proof. unfold shape_rejected. intros H. now apply orb_false_elim in H. Qed.

(** What is stored for a payload that passes the guards: the zip alone, or
    the two coordinates alone. *)
Lemma shape_accepted_modes p :
  shape_rejected p = false ->
  (exists zip, loc_zip p = Some zip /\ zip <> ""
     /\ or_null str_truthy (loc_zip p) = Some zip
     /\ or_null num_truthy (loc_lat p) = None
     /\ or_null num_truthy (loc_lon p) = None)
  \/ (exists lat lon,
        loc_lat p = Some lat /\ loc_lon p = Some lon
        /\ num_truthy lat = true /\ num_truthy lon = true
        /\ or_null str_truthy (loc_zip p) = None
        /\ or_null num_truthy (loc_lat p) = Some lat
        /\ or_null num_truthy (loc_lon p) = Some lon).
Proof.
  unfold shape_rejected, or_null. intros H.
  destruct (loc_zip p) as [zip|] eqn:Hz; simpl in *.
  - destruct zip as [|a zip]; simpl in *.
    + right.
      destruct (loc_lat p) as [lat|]; simpl in *; try discriminate.
      destruct (loc_lon p) as [lon|]; simpl in *;
        [|rewrite andb_false_r in H; discriminate].
      destruct (num_truthy lat) eqn:Hlat; simpl in *; try discriminate.
      destruct (num_truthy lon) eqn:Hlon; simpl in *; try discriminate.
      exists lat, lon. now rewrite Hlat, Hlon.
    + left. exists (String a zip).
      destruct (truthy num_truthy (loc_lat p)); simpl in *; try discriminate.
      destruct (truthy num_truthy (loc_lon p)); simpl in *; try discriminate.
      repeat split; congruence.
  - right.
    destruct (loc_lat p) as [lat|]; simpl in *; try discriminate.
    destruct (loc_lon p) as [lon|]; simpl in *;
      [|rewrite andb_false_r in H; discriminate].
    destruct (num_truthy lat) eqn:Hlat; simpl in *; try discriminate.
    destruct (num_truthy lon) eqn:Hlon; simpl in *; try discriminate.
    exists lat, lon. now rewrite Hlat, Hlon.
Qed.

(** Where every supplied field is truthy the guards decide exactly the
    rule of the specification. *)
Lemma shape_rule_on_truthy_fields p :
  truthy str_truthy (loc_zip p) = supplied (loc_zip p) ->
  truthy num_truthy (loc_lat p) = supplied (loc_lat p) ->
  truthy num_truthy (loc_lon p) = supplied (loc_lon p) ->
  shape_rejected p = InvalidLocationShape_expected p.
Proof.
  intros Hz Hlat Hlon.
  unfold shape_rejected, InvalidLocationShape_expected.
  now rewrite Hz, Hlat, Hlon.
Qed.

(** C2.  A payload with latitude 0, longitude 10 and no zip has a complete
    coordinate pair and nothing else, so the rule accepts it; the add and
    the update route answer it with status 400 'Either zip or lat/lon
    required'.  A payload with zip "94040" and latitude 0 has a zip and a
    coordinate component, so the rule rejects it; the update route stores
    it.  Both guards test the fields for truthiness, and 0 is falsy. *)
Theorem shape_check_zero_coordinate :
  forall w id,
    InvalidLocationShape_expected equator = false
    /\ Full.post_location db_fails (Some "ann") equator w =
       (res_status_error 400 "Either zip or lat/lon required", w)
    /\ Full.put_location db_fails id equator w =
       (res_status_error 400 "Either zip or lat/lon required", w)
    /\ InvalidLocationShape_expected zip_with_zero_lat = true
    /\ fst (Full.put_location always_up 1 zip_with_zero_lat ann_world) =
       res_json (Message "location updated").
Proof. intros w id. repeat split. Qed.

End ShapeFacts.

(** ** The cap *)

Lemma count_after_insert user_id zip lat lon s :
  exec_SELECT_COUNT_FROM_locations user_id
    (exec_INSERT_locations user_id zip lat lon s)
  = S (exec_SELECT_COUNT_FROM_locations user_id s).
Proof.
  unfold exec_SELECT_COUNT_FROM_locations, exec_INSERT_locations. simpl.
  rewrite filter_app, length_app. simpl. unfold owned_by at 2. simpl.
  rewrite Z.eqb_refl. simpl. lia.
Qed.

(** Any route that answers as the add routes do, on the count of [w]. *)
Lemma cap_enforced_intro (h : handler) user_id zip lat lon w w1 w2 :
  h w = (if (5 <=? exec_SELECT_COUNT_FROM_locations user_id (db w))%nat
         then (res_status_error 400 "max 5 locations", w1)
         else (res_json (Message "location added"), w2)) ->
  db w1 = db w ->
  db w2 = exec_INSERT_locations user_id zip lat lon (db w) ->
  cap_enforced h user_id w.
Proof.
  intros Hrun Hw1 Hw2. unfold cap_enforced, LocationLimitExceeded.
  rewrite Hrun.
  destruct (5 <=? exec_SELECT_COUNT_FROM_locations user_id (db w))%nat eqn:Hcap;
    [apply Nat.leb_le in Hcap | apply Nat.leb_gt in Hcap]; simpl.
  - split; [split; auto; lia | split; [auto | intros; lia]].
  - split; [split; [discriminate | lia] |].
    split; [intros; lia | intros _].
    split; [reflexivity |].
    split; [| rewrite Hw2; apply count_after_insert].
    unfold adds_one_location. rewrite Hw2. eexists. simpl. repeat split.
Qed.

Section RouteFacts.

Variable db_fails : nat -> statement -> bool.
Hypothesis Hup : accepts_all db_fails.

Lemma post_location_run name p id rest w :
  str_truthy name = true ->
  shape_rejected p = false ->
  exec_SELECT_id_FROM_users name (db w) = id :: rest ->
  Full.post_location db_fails (Some name) p w =
  (if (5 <=? exec_SELECT_COUNT_FROM_locations id (db w))%nat
   then (res_status_error 400 "max 5 locations",
         {| db := db w;
            issued := ((issued w ++ [SELECT_id_FROM_users name])
                         ++ [SELECT_COUNT_FROM_locations id])%list;
            dbInitialized := dbInitialized w |})
   else (res_json (Message "location added"),
         {| db := exec_INSERT_locations id
                    (or_null str_truthy (loc_zip p))
                    (or_null num_truthy (loc_lat p))
                    (or_null num_truthy (loc_lon p)) (db w);
            issued := (((issued w ++ [SELECT_id_FROM_users name])
                          ++ [SELECT_COUNT_FROM_locations id])
                         ++ [INSERT_locations id
                               (or_null str_truthy (loc_zip p))
                               (or_null num_truthy (loc_lat p))
                               (or_null num_truthy (loc_lon p))])%list;
            dbInitialized := dbInitialized w |})).
Proof.
  intros Hname Hshape Huser.
  destruct (shape_accepted_guards p Hshape) as [Hg1 Hg2].
  unfold Full.post_location. rewrite Hname. cbv zeta.
  rewrite Hg1, Hg2. simpl.
  run_queries Hup. simpl. rewrite Huser.
  run_queries Hup. simpl.
  destruct (5 <=? exec_SELECT_COUNT_FROM_locations id (db w))%nat.
  - reflexivity.
  - run_queries Hup. reflexivity.
Qed.

(** The routes of test.js run [initDB] first; [pre] is what it sent. *)
Lemma location_add_zip_run name zip id rest w :
  exec_SELECT_id_FROM_users name (db w) = id :: rest ->
  exists pre,
    forallb is_schema_setup pre = true
    /\ Test.location_add_zip db_fails name zip w =
       (if (5 <=? exec_SELECT_COUNT_FROM_locations id (db w))%nat
        then (res_status_error 400 "max 5 locations",
              {| db := db w;
                 issued := (((issued w ++ pre)
                               ++ [SELECT_id_FROM_users name])
                              ++ [SELECT_COUNT_FROM_locations id])%list;
                 dbInitialized := true |})
        else (res_json (Message "location added"),
              {| db := exec_INSERT_locations id (Some zip) None None (db w);
                 issued := ((((issued w ++ pre)
                                ++ [SELECT_id_FROM_users name])
                               ++ [SELECT_COUNT_FROM_locations id])
                              ++ [INSERT_locations id (Some zip)
                                    None None])%list;
                 dbInitialized := true |})).
Proof.
  intros Huser.
  destruct (initDB_accepted w Hup) as (pre & Hinit & Hpre & _).
  exists pre. split; [assumption|].
  unfold Test.location_add_zip, try_catch, bind. rewrite Hinit.
  rewrite (pool_query_accepted _ _ _ Hup). simpl. rewrite Huser.
  rewrite (pool_query_accepted _ _ _ Hup). simpl.
  destruct (5 <=? exec_SELECT_COUNT_FROM_locations id (db w))%nat;
    [reflexivity|].
  rewrite (pool_query_accepted _ _ _ Hup). reflexivity.
Qed.

Lemma location_add_lat_lon_run name lat lon id rest w :
  exec_SELECT_id_FROM_users name (db w) = id :: rest ->
  exists pre,
    forallb is_schema_setup pre = true
    /\ Test.location_add_lat_lon db_fails name lat lon w =
       (if (5 <=? exec_SELECT_COUNT_FROM_locations id (db w))%nat
        then (res_status_error 400 "max 5 locations",
              {| db := db w;
                 issued := (((issued w ++ pre)
                               ++ [SELECT_id_FROM_users name])
                              ++ [SELECT_COUNT_FROM_locations id])%list;
                 dbInitialized := true |})
        else (res_json (Message "location added"),
              {| db := exec_INSERT_locations id None (Some lat) (Some lon)
                         (db w);
                 issued := ((((issued w ++ pre)
                                ++ [SELECT_id_FROM_users name])
                               ++ [SELECT_COUNT_FROM_locations id])
                              ++ [INSERT_locations id None (Some lat)
                                    (Some lon)])%list;
                 dbInitialized := true |})).
Proof.
  intros Huser.
  destruct (initDB_accepted w Hup) as (pre & Hinit & Hpre & _).
  exists pre. split; [assumption|].
  unfold Test.location_add_lat_lon, try_catch, bind. rewrite Hinit.
  rewrite (pool_query_accepted _ _ _ Hup). simpl. rewrite Huser.
  rewrite (pool_query_accepted _ _ _ Hup). simpl.
  destruct (5 <=? exec_SELECT_COUNT_FROM_locations id (db w))%nat;
    [reflexivity|].
  rewrite (pool_query_accepted _ _ _ Hup). reflexivity.
Qed.

Lemma put_location_run id p w :
  shape_rejected p = false ->
  Full.put_location db_fails id p w =
  (res_json (Message "location updated"),
   {| db := exec_UPDATE_locations (or_null str_truthy (loc_zip p))
              (or_null num_truthy (loc_lat p))
              (or_null num_truthy (loc_lon p)) id (db w);
      issued := (issued w ++
                   [UPDATE_locations (or_null str_truthy (loc_zip p))
                      (or_null num_truthy (loc_lat p))
                      (or_null num_truthy (loc_lon p)) id])%list;
      dbInitialized := dbInitialized w |}).
Proof.
  intros Hshape.
  destruct (shape_accepted_guards p Hshape) as [Hg1 Hg2].
  unfold Full.put_location. cbv zeta. rewrite Hg1, Hg2.
  run_queries Hup. reflexivity.
Qed.

Lemma delete_location_run id w :
  Full.delete_location db_fails id w =
  (res_json (Message "location deleted"),
   {| db := exec_DELETE_FROM_locations id (db w);
      issued := (issued w ++ [DELETE_FROM_locations id])%list;
      dbInitialized := dbInitialized w |}).
Proof. unfold Full.delete_location. run_queries Hup. reflexivity. Qed.

Lemma location_update_zip_run id zip w :
  exists pre,
    forallb is_schema_setup pre = true
    /\ Test.location_update_zip db_fails id zip w =
       (res_json (Message "location updated"),
        {| db := exec_UPDATE_locations (Some zip) None None id (db w);
           issued := ((issued w ++ pre)
                        ++ [UPDATE_locations (Some zip) None None id])%list;
           dbInitialized := true |}).
Proof.
  destruct (initDB_accepted w Hup) as (pre & Hinit & Hpre & _).
  exists pre. split; [assumption|].
  unfold Test.location_update_zip, try_catch, bind. rewrite Hinit.
  rewrite (pool_query_accepted _ _ _ Hup). reflexivity.
Qed.

Lemma location_update_lat_lon_run id lat lon w :
  exists pre,
    forallb is_schema_setup pre = true
    /\ Test.location_update_lat_lon db_fails id lat lon w =
       (res_json (Message "location updated"),
        {| db := exec_UPDATE_locations None (Some lat) (Some lon) id (db w);
           issued := ((issued w ++ pre)
                        ++ [UPDATE_locations None (Some lat) (Some lon)
                              id])%list;
           dbInitialized := true |}).
Proof.
  destruct (initDB_accepted w Hup) as (pre & Hinit & Hpre & _).
  exists pre. split; [assumption|].
  unfold Test.location_update_lat_lon, try_catch, bind. rewrite Hinit.
  rewrite (pool_query_accepted _ _ _ Hup). reflexivity.
Qed.

Lemma location_delete_run id w :
  exists pre,
    forallb is_schema_setup pre = true
    /\ Test.location_delete db_fails id w =
       (res_json (Message "location deleted"),
        {| db := exec_DELETE_FROM_locations id (db w);
           issued := ((issued w ++ pre)
                        ++ [DELETE_FROM_locations id])%list;
           dbInitialized := true |}).
Proof.
  destruct (initDB_accepted w Hup) as (pre & Hinit & Hpre & _).
  exists pre. split; [assumption|].
  unfold Test.location_delete, try_catch, bind. rewrite Hinit.
  rewrite (pool_query_accepted _ _ _ Hup). reflexivity.
Qed.

End RouteFacts.

Lemma schema_setup_never_counts pre :
  forallb is_schema_setup pre = true ->
  forallb (fun q => negb (is_count q)) pre = true.
Proof.
  induction pre as [|q pre IH]; simpl; [reflexivity|].
  intros H. apply andb_true_iff in H as [Hq Hpre].
  rewrite (IH Hpre). now destruct q.
Qed.

(** C3.  For a user that exists, a payload that passes the shape guards,
    and a database that answers: each add route answers 'max 5 locations'
    exactly when the user already has 5 locations or more, storing nothing;
    with 4 or fewer it answers 'location added' and the table has gained
    one location of that user.  The update routes answer 'location
    updated' for any id, whatever the count, and send no counting query. *)
Theorem location_cap :
  forall db_fails name p zip lat lon id rest w,
    accepts_all db_fails ->
    str_truthy name = true ->
    shape_rejected p = false ->
    exec_SELECT_id_FROM_users name (db w) = id :: rest ->
    cap_enforced (Full.post_location db_fails (Some name) p) id w
    /\ cap_enforced (Test.location_add_zip db_fails name zip) id w
    /\ cap_enforced (Test.location_add_lat_lon db_fails name lat lon) id w
    /\ (forall id',
          update_uncapped (Full.put_location db_fails id' p) w
          /\ update_uncapped (Test.location_update_zip db_fails id' zip) w
          /\ update_uncapped
               (Test.location_update_lat_lon db_fails id' lat lon) w).
Proof.
  intros db_fails name p zip lat lon id rest w Hup Hname Hshape Huser.
  split; [|split; [|split]].
  - eapply cap_enforced_intro;
      [eapply post_location_run; eassumption | |]; reflexivity.
  - destruct (@location_add_zip_run db_fails Hup name zip id rest w Huser)
      as (pre & _ & Hrun).
    eapply cap_enforced_intro; [exact Hrun | |]; reflexivity.
  - destruct (@location_add_lat_lon_run db_fails Hup name lat lon id rest w
                Huser)
      as (pre & _ & Hrun).
    eapply cap_enforced_intro; [exact Hrun | |]; reflexivity.
  - intros id'. unfold update_uncapped. split; [|split].
    + rewrite (@put_location_run db_fails Hup id' p w Hshape). simpl.
      split; [reflexivity|]. eexists. split; reflexivity.
    + destruct (@location_update_zip_run db_fails Hup id' zip w)
        as (pre & Hpre & ->).
      simpl. split; [reflexivity|].
      exists (pre ++ [UPDATE_locations (Some zip) None None id'])%list.
      rewrite app_assoc. split; [reflexivity|].
      rewrite forallb_app, (schema_setup_never_counts pre Hpre). reflexivity.
    + destruct (@location_update_lat_lon_run db_fails Hup id' lat lon w)
        as (pre & Hpre & ->).
      simpl. split; [reflexivity|].
      exists (pre ++ [UPDATE_locations None (Some lat) (Some lon) id'])%list.
      rewrite app_assoc. split; [reflexivity|].
      rewrite forallb_app, (schema_setup_never_counts pre Hpre). reflexivity.
Qed.

Lemma location_cap_witness :
  accepts_all always_up
  /\ str_truthy "ann" = true
  /\ shape_rejected mountain_view = false
  /\ exec_SELECT_id_FROM_users "ann" (db ann_world_full) = [1%Z]
  /\ cap_enforced (Full.post_location always_up (Some "ann") mountain_view)
       1 ann_world_full
  /\ cap_enforced (Test.location_add_zip always_up "ann" "10001")
       1 ann_world_full
  /\ cap_enforced
       (Test.location_add_lat_lon always_up "ann" (mkNum "51.5")
          (mkNum "-0.12")) 1 ann_world_full
  /\ (forall id',
        update_uncapped (Full.put_location always_up id' mountain_view)
          ann_world_full
        /\ update_uncapped (Test.location_update_zip always_up id' "10001")
             ann_world_full
        /\ update_uncapped
             (Test.location_update_lat_lon always_up id' (mkNum "51.5")
                (mkNum "-0.12")) ann_world_full).
Proof.
  refine (conj always_up_accepts (conj eq_refl (conj eq_refl
            (conj eq_refl _)))).
  exact (@location_cap always_up "ann" mountain_view "10001" (mkNum "51.5")
           (mkNum "-0.12") 1%Z [] ann_world_full always_up_accepts
           eq_refl eq_refl eq_refl).
Defined.

(** With five locations a sixth is refused and nothing is stored; with
    three the add goes through. *)
Example add_at_the_cap :
  Full.post_location always_up (Some "ann") mountain_view ann_world_full =
  (res_status_error 400 "max 5 locations",
   {| db := db ann_world_full;
      issued := [SELECT_id_FROM_users "ann"; SELECT_COUNT_FROM_locations 1];
      dbInitialized := true |}).
Proof. reflexivity. Qed.

Example add_below_the_cap :
  fst (Full.post_location always_up (Some "ann") mountain_view ann_world)
  = res_json (Message "location added")
  /\ length (locations (db (snd (Full.post_location always_up (Some "ann")
                                   mountain_view ann_world)))) = 4.
Proof. split; reflexivity. Qed.

(** An update at the cap is carried out. *)
Example update_at_the_cap :
  fst (Full.put_location always_up 5 palo_alto ann_world_full)
  = res_json (Message "location updated").
Proof. reflexivity. Qed.

(** ** Updates and deletes on the table *)

Lemma row_id id s r : row id s = Some r -> locations_id r = id.
Proof.
  unfold row. intros H. apply find_some in H as [_ H].
  now apply Z.eqb_eq.
Qed.


Lemma set_fields_miss zip lat lon id x :
  (locations_id x =? id)%Z = false -> set_fields zip lat lon id x = x.
Proof. intros H. unfold set_fields. now rewrite H. Qed.

Lemma find_app {A} (f : A -> bool) l1 l2 :
  find f (l1 ++ l2)%list
  = match find f l1 with Some x => Some x | None => find f l2 end.
Proof.
  induction l1 as [|x l1 IH]; simpl; [reflexivity|].
  now destruct (f x).
Qed.



Lemma filter_none {A} (f : A -> bool) l :
  existsb f l = false ->
  filter f l = [] /\ filter (fun x => negb (f x)) l = l.
Proof.
  induction l as [|x l IH]; simpl; [auto|].
  intros H. apply orb_false_elim in H as [Hx Hl].
  destruct (IH Hl) as [H1 H2]. rewrite Hx. simpl. now rewrite H1, H2.
Qed.


(** An update or a delete by an id that no row carries changes nothing. *)
Lemma update_absent zip lat lon id s :
  stored id s = false -> exec_UPDATE_locations zip lat lon id s = s.
Proof.
  unfold stored, exec_UPDATE_locations. intros H.
  destruct s as [us ls useq lseq]. simpl in *. f_equal.
  destruct (filter_none _ _ H) as [-> ->]. simpl. apply app_nil_r.
Qed.

Lemma delete_absent id s :
  stored id s = false -> exec_DELETE_FROM_locations id s = s.
Proof.
  unfold stored, exec_DELETE_FROM_locations. intros H.
  destruct s as [us ls useq lseq]. simpl in *. f_equal.
  induction ls as [|x l IH]; simpl in *; [reflexivity|].
  apply orb_false_elim in H as [Hx Hl].
  rewrite Hx. simpl. now rewrite IH.
Qed.

(** The id the next insert will use is carried by no row yet. *)
Lemma fresh_not_stored s :
  fresh_ids s -> stored (locations_id_seq s) s = false.
Proof.
  unfold fresh_ids, stored. intros H.
  induction H as [|x l Hx _ IH]; simpl; [reflexivity|].
  rewrite IH, orb_false_r. apply Z.eqb_neq. lia.
Qed.



(** ** What the write routes leave in the database *)

Section WriteFacts.

Variable db_fails : nat -> statement -> bool.
Hypothesis Hup : accepts_all db_fails.






Lemma location_update_zip_db id zip w :
  db (snd (Test.location_update_zip db_fails id zip w)) =
  exec_UPDATE_locations (Some zip) None None id (db w).
Proof.
  destruct (@location_update_zip_run db_fails Hup id zip w)
    as (pre & _ & ->). reflexivity.
Qed.

Lemma location_update_lat_lon_db id lat lon w :
  db (snd (Test.location_update_lat_lon db_fails id lat lon w)) =
  exec_UPDATE_locations None (Some lat) (Some lon) id (db w).
Proof.
  destruct (@location_update_lat_lon_run db_fails Hup id lat lon w)
    as (pre & _ & ->). reflexivity.
Qed.

Lemma location_add_zip_db name zip user_id rest w :
  exec_SELECT_id_FROM_users name (db w) = user_id :: rest ->
  exec_SELECT_COUNT_FROM_locations user_id (db w) <= 4 ->
  db (snd (Test.location_add_zip db_fails name zip w)) =
  exec_INSERT_locations user_id (Some zip) None None (db w).
Proof.
  intros Huser Hcount.
  destruct (@location_add_zip_run db_fails Hup name zip user_id rest w
              Huser) as (pre & _ & ->).
  replace (5 <=? exec_SELECT_COUNT_FROM_locations user_id (db w))%nat
    with false by (symmetry; apply Nat.leb_gt; lia).
  reflexivity.
Qed.

End WriteFacts.



Lemma ann_world_fresh : fresh_ids (db ann_world).
Proof. repeat constructor. Defined.


(** ** Creating a user *)




Section CreateFacts.

Variable db_fails : nat -> statement -> bool.
Hypothesis Hup : accepts_all db_fails.



End CreateFacts.






Example create_twice :
  users (db (snd (repeat_request (Full.post_user always_up (Some "bob")) 2
                    ann_world)))
  = [ann; {| users_id := 2; users_username := "bob" |}].
Proof. reflexivity. Qed.

(** The guard of full.js answers an empty username before any query. *)
Example create_without_name w :
  Full.post_user always_up (Some "") w
  = (res_status_error 400 "username required", w).
Proof. reflexivity. Qed.

(** ** Ids that no location carries *)

(** C8.  While the database answers, for an id that no stored location
    carries: the update routes answer 'location updated' and the delete
    routes 'location deleted', with status 200, the database is left exactly
    as it was, and the answer is the one every other state of the database
    gets, whether or not it has a location of that id.  (In full.js the
    update is given a payload that passes the shape guards.) *)
Theorem missing_id_succeeds :
  forall db_fails id p zip lat lon w,
    accepts_all db_fails ->
    shape_rejected p = false ->
    stored id (db w) = false ->
    missing_id_tolerated (Full.put_location db_fails id p)
      "location updated" w
    /\ missing_id_tolerated (Full.delete_location db_fails id)
         "location deleted" w
    /\ missing_id_tolerated (Test.location_update_zip db_fails id zip)
         "location updated" w
    /\ missing_id_tolerated (Test.location_update_lat_lon db_fails id lat lon)
         "location updated" w
    /\ missing_id_tolerated (Test.location_delete db_fails id)
         "location deleted" w.
Proof.
  intros db_fails id p zip lat lon w Hup Hshape Hmiss.
  unfold missing_id_tolerated. repeat split.
  - now rewrite (@put_location_run db_fails Hup id p w Hshape).
  - rewrite (@put_location_run db_fails Hup id p w Hshape). simpl.
    now apply update_absent.
  - intros w'. now rewrite (@put_location_run db_fails Hup id p w' Hshape).
  - now rewrite (@delete_location_run db_fails Hup id w).
  - rewrite (@delete_location_run db_fails Hup id w). simpl.
    now apply delete_absent.
  - intros w'. now rewrite (@delete_location_run db_fails Hup id w').
  - now destruct (@location_update_zip_run db_fails Hup id zip w)
      as (pre & _ & ->).
  - rewrite (@location_update_zip_db db_fails Hup id zip w).
    now apply update_absent.
  - intros w'.
    now destruct (@location_update_zip_run db_fails Hup id zip w')
      as (pre & _ & ->).
  - now destruct (@location_update_lat_lon_run db_fails Hup id lat lon w)
      as (pre & _ & ->).
  - rewrite (@location_update_lat_lon_db db_fails Hup id lat lon w).
    now apply update_absent.
  - intros w'.
    now destruct (@location_update_lat_lon_run db_fails Hup id lat lon w')
      as (pre & _ & ->).
  - now destruct (@location_delete_run db_fails Hup id w) as (pre & _ & ->).
  - destruct (@location_delete_run db_fails Hup id w) as (pre & _ & ->).
    simpl. now apply delete_absent.
  - intros w'.
    now destruct (@location_delete_run db_fails Hup id w') as (pre & _ & ->).
Qed.

Lemma missing_id_succeeds_witness :
  accepts_all always_up
  /\ shape_rejected mountain_view = false
  /\ stored 99 (db ann_world) = false
  /\ missing_id_tolerated (Full.put_location always_up 99 mountain_view)
       "location updated" ann_world
  /\ missing_id_tolerated (Full.delete_location always_up 99)
       "location deleted" ann_world
  /\ missing_id_tolerated (Test.location_update_zip always_up 99 "10001")
       "location updated" ann_world
  /\ missing_id_tolerated
       (Test.location_update_lat_lon always_up 99 (mkNum "51.5")
          (mkNum "-0.12")) "location updated" ann_world
  /\ missing_id_tolerated (Test.location_delete always_up 99)
       "location deleted" ann_world.
Proof.
  refine (conj always_up_accepts (conj eq_refl (conj eq_refl _))).
  exact (@missing_id_succeeds always_up 99%Z mountain_view "10001"
           (mkNum "51.5") (mkNum "-0.12") ann_world always_up_accepts
           eq_refl eq_refl).
Defined.

(** ** The weather routes write nothing *)

Section ReadOnly.

Variable API_KEY : option string.
Variable axios_get : nat -> string -> completion json.
Variable db_fails : nat -> statement -> bool.

Lemma weather_body_lookups name w :
  exists qs,
    issued (snd (weather_body API_KEY axios_get db_fails name w))
    = (issued w ++ qs)%list
    /\ forallb is_lookup qs = true
    /\ db (snd (weather_body API_KEY axios_get db_fails name w)) = db w.
Proof.
  unfold weather_body, bind, pool_query, ret.
  destruct (db_fails (length (issued w)) (SELECT_id_FROM_users name)).
  - exists [SELECT_id_FROM_users name]. repeat split.
  - cbn [fst snd db issued exec].
    destruct (exec_SELECT_id_FROM_users name (db w)) as [|id rest].
    + exists [SELECT_id_FROM_users name]. repeat split.
    + cbn [fst snd db issued exec].
      destruct (db_fails _ (SELECT_zip_lat_lon_FROM_locations id));
        exists [SELECT_id_FROM_users name;
                SELECT_zip_lat_lon_FROM_locations id];
        cbn [fst snd db issued exec]; rewrite <- app_assoc;
        repeat split.
Qed.

Lemma try_catch_world (m : M response) w :
  snd (try_catch m w) = snd (m w).
Proof. unfold try_catch. now destruct (m w) as [[r|] w']. Qed.

Lemma bind_world {A B} (m : M A) (k : A -> M B) w :
  snd (bind m k w) =
  match fst (m w) with
  | Some a => snd (k a (snd (m w)))
  | None => snd (m w)
  end.
Proof. unfold bind. now destruct (m w) as [[a|] w']. Qed.

(** [initDB] whether or not its statements are accepted. *)
Lemma initDB_setup w :
  exists pre,
    issued (snd (Test.initDB db_fails w)) = (issued w ++ pre)%list
    /\ forallb is_schema_setup pre = true
    /\ db (snd (Test.initDB db_fails w)) = db w
    /\ (dbInitialized w = true -> pre = []).
Proof.
  unfold Test.initDB, bind, pool_query, Test.set_dbInitialized.
  destruct (dbInitialized w).
  - exists []. rewrite app_nil_r. repeat split.
  - destruct (db_fails (length (issued w)) CREATE_TABLE_users).
    + exists [CREATE_TABLE_users]. repeat split. discriminate.
    + cbn [fst snd db issued exec].
      destruct (db_fails _ CREATE_TABLE_locations);
        exists [CREATE_TABLE_users; CREATE_TABLE_locations];
        cbn [fst snd db issued exec]; rewrite <- app_assoc;
        repeat split; discriminate.
Qed.

Lemma get_weather_read_only username w :
  read_only (Full.get_weather API_KEY axios_get db_fails username) w.
Proof.
  assert (Hnone : read_only
                    (send (res_status_error 400 "username required")) w).
  { repeat split. exists []. now rewrite app_nil_r. }
  unfold Full.get_weather.
  destruct username as [name|]; [|exact Hnone].
  destruct (str_truthy name); [|exact Hnone]. simpl.
  fold (weather_body API_KEY axios_get db_fails name).
  destruct (weather_body_lookups name w) as (qs & Hqs & Hall & Hdb).
  unfold read_only, only_lookups. rewrite try_catch_world, Hdb.
  repeat split. now exists qs.
Qed.

Lemma weather_read_only_after_setup name w :
  read_only_after_setup (Test.weather API_KEY axios_get db_fails name) w.
Proof.
  unfold read_only_after_setup, Test.weather.
  fold (weather_body API_KEY axios_get db_fails name). rewrite try_catch_world.
  destruct (initDB_setup w) as (pre & Hpre & Hsetup & Hdb & Hwarm).
  rewrite bind_world.
  destruct (Test.initDB db_fails w) as [[[]|] w1];
    cbn [fst snd] in *.
  - destruct (weather_body_lookups name w1) as (qs & Hqs & Hall & Hdb').
    rewrite Hdb', Hdb. repeat split.
    exists pre, qs. rewrite Hqs, Hpre, <- app_assoc. auto.
  - rewrite Hdb. repeat split.
    exists pre, []. rewrite Hpre, app_nil_r. auto.
Qed.

End ReadOnly.

(** C9, as amended.  Whatever the provider and the database do, a weather
    request leaves the users and locations records as they were.  The route
    of full.js sends lookups only.  The route of test.js sends lookups only
    once the process has completed [initDB]; before that its lookups follow
    the CREATE TABLE IF NOT EXISTS statements of [initDB]. *)
Theorem weather_is_read_only :
  forall API_KEY axios_get db_fails username name w,
    read_only (Full.get_weather API_KEY axios_get db_fails username) w
    /\ read_only_after_setup
         (Test.weather API_KEY axios_get db_fails name) w.
Proof.
  intros. split.
  - apply get_weather_read_only.
  - apply weather_read_only_after_setup.
Qed.

(** C9, as stated, fails for the route of test.js in a process that has not
    yet run [initDB]: its first statement is CREATE TABLE IF NOT EXISTS
    users, which is not a lookup. *)
Lemma weather_cold_start_not_read_only :
  ~ read_only (Test.weather (Some "k") flaky_provider always_up "ann")
      ann_world_cold.
Proof.
  intros [(qs & Hqs & Hall) _]. vm_compute in Hqs. subst qs. discriminate.
Qed.

(** Once [initDB] has completed, the route of test.js is read-only too. *)
Lemma weather_read_only_when_initialized API_KEY axios_get db_fails name w :
  dbInitialized w = true ->
  read_only (Test.weather API_KEY axios_get db_fails name) w.
Proof.
  intros Hwarm.
  destruct (weather_read_only_after_setup API_KEY axios_get db_fails name w)
    as ((pre & qs & Hqs & _ & Hall & Hpre) & Hus & Hls).
  rewrite (Hpre Hwarm) in Hqs. simpl in Hqs.
  repeat split; try assumption. now exists qs.
Qed.

(** ** Listing what was added *)

Section ListFacts.

Variable db_fails : nat -> statement -> bool.
Hypothesis Hup : accepts_all db_fails.

Lemma get_locations_found name user_id rest w :
  str_truthy name = true ->
  exec_SELECT_id_FROM_users name (db w) = user_id :: rest ->
  fst (Full.get_locations db_fails (Some name) w) =
  res_json (Rows (exec_SELECT_all_FROM_locations user_id (db w))).
Proof.
  intros Hname Huser. unfold Full.get_locations. rewrite Hname. simpl.
  run_queries Hup. simpl. rewrite Huser.
  run_queries Hup. reflexivity.
Qed.

Lemma location_list_found name user_id rest w :
  exec_SELECT_id_FROM_users name (db w) = user_id :: rest ->
  fst (Test.location_list db_fails name w) =
  res_json (Rows (exec_SELECT_all_FROM_locations user_id (db w))).
Proof.
  intros Huser. unfold Test.location_list, try_catch, bind.
  destruct (initDB_accepted w Hup) as (pre & -> & _).
  rewrite (pool_query_accepted _ _ _ Hup). simpl. rewrite Huser.
  rewrite (pool_query_accepted _ _ _ Hup). reflexivity.
Qed.

End ListFacts.

Lemma select_all_after_insert user_id zip lat lon s :
  exec_SELECT_all_FROM_locations user_id
    (exec_INSERT_locations user_id zip lat lon s)
  = (exec_SELECT_all_FROM_locations user_id s ++
       [ {| locations_id := locations_id_seq s;
            locations_user_id := user_id;
            locations_zip := zip; locations_lat := lat;
            locations_lon := lon |} ])%list.
Proof.
  unfold exec_SELECT_all_FROM_locations, exec_INSERT_locations. simpl.
  rewrite filter_app. simpl. unfold owned_by at 2. simpl.
  now rewrite Z.eqb_refl.
Qed.



(** * Further properties of the routes *)

(** ** Every route writes at most once *)

(** Splits a route on every test it makes: its guards, the flag of
    [initDB], the answers of the database and the rows of a lookup. *)
Ltac split_route :=
  repeat
    (cbv beta iota zeta; cbn [fst snd db issued dbInitialized status json_body];
     match goal with
     | |- context [match ?x with Some _ => _ | None => _ end] =>
         is_var x; destruct x
     | |- context [if ?b then _ else _] => destruct b eqn:?
     | |- context [match ?l with [] => _ | _ :: _ => _ end] =>
         destruct l eqn:?
     end).

Ltac open_route :=
  unfold Test.initDB, Test.set_dbInitialized,
         try_catch, bind, ret, send, pool_query, no_rows.

Lemma looked_up_is_stored name s id rest :
  exec_SELECT_id_FROM_users name s = id :: rest ->
  In id (map users_id (users s)).
Proof.
  unfold exec_SELECT_id_FROM_users. intros H.
  assert (Hin : In id (map users_id (filter (named name) (users s))))
    by (rewrite H; now left).
  apply in_map_iff in Hin as (u & <- & Hu).
  apply filter_In in Hu as [Hu _]. now apply in_map.
Qed.

Section SingleWrite.

Variable API_KEY : option string.
Variable axios_get : nat -> string -> completion json.
Variable db_fails : nat -> statement -> bool.

(** Closes a branch of a route: nothing written, or the one write. *)
Ltac close_write :=
  first
    [ left; reflexivity
    | right; eexists (INSERT_users _); split; [reflexivity|];
      split; [exact I|]; split; reflexivity
    | right; eexists (UPDATE_locations _ _ _ _); split; [reflexivity|];
      split; [exact I|]; split; reflexivity
    | right; eexists (DELETE_FROM_locations _); split; [reflexivity|];
      split; [exact I|]; split; reflexivity
    | right; eexists (INSERT_locations _ _ _ _); split; [reflexivity|];
      split;
      [ split;
        [ apply Nat.leb_gt; eassumption
        | eapply looked_up_is_stored; eassumption ]
      | split; reflexivity ] ].

Lemma full_app_single_write r w :
  single_write (full_app API_KEY axios_get db_fails r) w.
Proof.
  unfold single_write.
  destruct r; cbn [full_app];
    unfold Full.post_user, Full.get_locations, Full.post_location,
           Full.put_location, Full.delete_location, Full.get_weather;
    open_route; split_route; close_write.
Qed.

Lemma test_app_single_write r w :
  single_write (test_app API_KEY axios_get db_fails r) w.
Proof.
  unfold single_write.
  destruct r; cbn [test_app];
    unfold Test.user_create, Test.location_list, Test.location_add_zip,
           Test.location_add_lat_lon, Test.location_update_zip,
           Test.location_update_lat_lon, Test.location_delete, Test.weather;
    open_route; split_route; close_write.
Qed.

End SingleWrite.

(** ** What one write does to the invariants *)

Lemma owned_by_set_fields zip lat lon id user_id r :
  owned_by user_id (set_fields zip lat lon id r) = owned_by user_id r.
Proof. unfold set_fields. now destruct (locations_id r =? id)%Z. Qed.

Lemma locations_id_set_fields zip lat lon id r :
  locations_id (set_fields zip lat lon id r) = locations_id r.
Proof. unfold set_fields. now destruct (locations_id r =? id)%Z. Qed.

Lemma locations_user_id_set_fields zip lat lon id r :
  locations_user_id (set_fields zip lat lon id r) = locations_user_id r.
Proof. unfold set_fields. now destruct (locations_id r =? id)%Z. Qed.

(** The rows an update leaves alone followed by the rows it rewrites are
    the rows of the table, in another order. *)
Lemma filter_split_permutation {A} (f : A -> bool) l :
  Permutation (filter (fun x => negb (f x)) l ++ filter f l)%list l.
Proof.
  induction l as [|x l IH]; simpl; [constructor|].
  destruct (f x); simpl.
  - symmetry. apply Permutation_cons_app. now symmetry.
  - now constructor.
Qed.

Lemma count_split {A} (g f : A -> bool) l :
  length (filter g (filter (fun x => negb (f x)) l))
  + length (filter g (filter f l))
  = length (filter g l).
Proof.
  induction l as [|x l IH]; simpl; [reflexivity|].
  destruct (f x); simpl; destruct (g x); simpl; lia.
Qed.

Lemma filter_map_length {A} (g : A -> bool) (h : A -> A) l :
  (forall x, g (h x) = g x) ->
  length (filter g (map h l)) = length (filter g l).
Proof.
  intros Hg. induction l as [|x l IH]; simpl; [reflexivity|].
  rewrite Hg. destruct (g x); simpl; now rewrite IH.
Qed.

Lemma map_set_fields_ids zip lat lon id l :
  map locations_id (map (set_fields zip lat lon id) l) = map locations_id l.
Proof.
  rewrite map_map. apply map_ext. intros r. apply locations_id_set_fields.
Qed.

Lemma map_set_fields_pairs zip lat lon id l :
  map (fun r => (locations_id r, locations_user_id r))
      (map (set_fields zip lat lon id) l)
  = map (fun r => (locations_id r, locations_user_id r)) l.
Proof.
  rewrite map_map. apply map_ext. intros r.
  now rewrite locations_id_set_fields, locations_user_id_set_fields.
Qed.

Lemma count_after_update zip lat lon id user_id s :
  exec_SELECT_COUNT_FROM_locations user_id
    (exec_UPDATE_locations zip lat lon id s)
  = exec_SELECT_COUNT_FROM_locations user_id s.
Proof.
  unfold exec_SELECT_COUNT_FROM_locations, exec_UPDATE_locations. simpl.
  rewrite filter_app, length_app, filter_map_length.
  - apply count_split.
  - intros r. apply owned_by_set_fields.
Qed.

Lemma count_after_delete id user_id s :
  exec_SELECT_COUNT_FROM_locations user_id (exec_DELETE_FROM_locations id s)
  <= exec_SELECT_COUNT_FROM_locations user_id s.
Proof.
  unfold exec_SELECT_COUNT_FROM_locations, exec_DELETE_FROM_locations. simpl.
  induction (locations s) as [|r l IH]; simpl; [lia|].
  destruct (negb (locations_id r =? id)%Z); simpl;
    destruct (owned_by user_id r); simpl; lia.
Qed.

Lemma count_after_insert_any user_id zip lat lon other s :
  exec_SELECT_COUNT_FROM_locations other
    (exec_INSERT_locations user_id zip lat lon s)
  = exec_SELECT_COUNT_FROM_locations other s
    + (if (user_id =? other)%Z then 1 else 0).
Proof.
  unfold exec_SELECT_COUNT_FROM_locations, exec_INSERT_locations. simpl.
  rewrite filter_app, length_app. simpl. unfold owned_by at 2. simpl.
  now destruct (user_id =? other)%Z.
Qed.

Lemma exec_within_cap q s :
  within_cap s -> permitted q s -> within_cap (exec q s).
Proof.
  intros Hcap Hq other. destruct q; simpl; try apply Hcap.
  - rewrite count_after_insert_any. destruct Hq as [Hq _].
    destruct (user_id =? other)%Z eqn:He.
    + apply Z.eqb_eq in He. subst. lia.
    + specialize (Hcap other). lia.
  - rewrite count_after_update. apply Hcap.
  - etransitivity; [apply count_after_delete | apply Hcap].
Qed.

Lemma existsb_named name us :
  existsb (named name) us = false -> ~ In name (map users_username us).
Proof.
  induction us as [|u us IH]; simpl; [tauto|].
  intros H. apply orb_false_elim in H as [Hu Hus].
  intros [Heq | Hin]; [|now apply IH].
  unfold named in Hu. rewrite Heq, String.eqb_refl in Hu. discriminate.
Qed.

Lemma below_not_in (ids : list Z) (top : Z) :
  Forall (fun i => (i < top)%Z) ids -> ~ In top ids.
Proof.
  intros Hall Hin. rewrite Forall_forall in Hall.
  specialize (Hall top Hin). lia.
Qed.

Lemma NoDup_snoc {A} (l : list A) x :
  NoDup l -> ~ In x l -> NoDup (l ++ [x]).
Proof.
  intros Hl Hx. induction Hl as [|y l Hy Hl IH]; simpl.
  - constructor; [tauto | constructor].
  - constructor.
    + rewrite in_app_iff. simpl. intros [H | [H | []]]; [tauto|].
      subst. apply Hx. now left.
    + apply IH. intros H. apply Hx. now right.
Qed.

Lemma NoDup_map_filter {A B} (f : A -> B) (p : A -> bool) l :
  NoDup (map f l) -> NoDup (map f (filter p l)).
Proof.
  induction l as [|x l IH]; simpl; [auto|].
  intros H. inversion H as [|? ? Hx Hl]; subst.
  destruct (p x); simpl; [|now apply IH].
  constructor; [|now apply IH].
  intros Hin. apply Hx. apply in_map_iff in Hin as (y & Hy & Hin).
  apply filter_In in Hin as [Hin _]. apply in_map_iff. now exists y.
Qed.

Lemma Forall_filter {A} (P : A -> Prop) (p : A -> bool) l :
  Forall P l -> Forall P (filter p l).
Proof.
  induction 1 as [|x l Hx Hl IH]; simpl; [constructor|].
  destruct (p x); [constructor|]; assumption.
Qed.

Lemma exec_keys_distinct q s : keys_distinct s -> keys_distinct (exec q s).
Proof.
  unfold keys_distinct, fresh_ids.
  intros (Hlid & Hlseq & Huid & Huseq & Hname).
  destruct q; simpl; auto.
  - (* INSERT INTO users *)
    repeat split; auto.
    + destruct (existsb (named username) (users s)); [assumption|].
      rewrite map_app. simpl. apply NoDup_snoc; [assumption|].
      apply below_not_in. rewrite Forall_map. exact Huseq.
    + destruct (existsb (named username) (users s)).
      * eapply Forall_impl; [|exact Huseq]. simpl. intros; lia.
      * apply Forall_app. split.
        -- eapply Forall_impl; [|exact Huseq]. simpl. intros; lia.
        -- constructor; [simpl; lia | constructor].
    + destruct (existsb (named username) (users s)) eqn:He; [assumption|].
      rewrite map_app. simpl. apply NoDup_snoc; [assumption|].
      now apply existsb_named.
  - (* INSERT INTO locations *)
    repeat split; auto.
    + rewrite map_app. simpl. apply NoDup_snoc; [assumption|].
      apply below_not_in. rewrite Forall_map. exact Hlseq.
    + apply Forall_app. split.
      * eapply Forall_impl; [|exact Hlseq]. simpl. intros; lia.
      * constructor; [simpl; lia | constructor].
  - (* UPDATE locations *)
    repeat split; auto.
    + rewrite map_app, map_set_fields_ids, <- map_app.
      eapply Permutation_NoDup; [|exact Hlid].
      symmetry. apply Permutation_map, filter_split_permutation.
    + apply Forall_app. split; [now apply Forall_filter|].
      rewrite Forall_map. apply Forall_filter.
      eapply Forall_impl; [|exact Hlseq].
      intros r Hr. simpl. now rewrite locations_id_set_fields.
  - (* DELETE FROM locations *)
    repeat split; auto.
    + now apply NoDup_map_filter.
    + now apply Forall_filter.
Qed.

Lemma exec_owners_exist q s :
  owners_exist s -> permitted q s -> owners_exist (exec q s).
Proof.
  unfold owners_exist. intros Hown Hq. destruct q; simpl; auto.
  - eapply Forall_impl; [|exact Hown]. simpl. intros r Hr.
    destruct (existsb (named username) (users s)); [assumption|].
    rewrite map_app, in_app_iff. now left.
  - apply Forall_app. split; [assumption|].
    constructor; [simpl; apply Hq | constructor].
  - apply Forall_app. split; [now apply Forall_filter|].
    rewrite Forall_map. apply Forall_filter.
    eapply Forall_impl; [|exact Hown].
    intros r Hr. simpl. now rewrite locations_user_id_set_fields.
  - now apply Forall_filter.
Qed.

(** ** Invariants of the database under any sequence of requests *)

Lemma single_write_keeps (Inv : store -> Prop) h w :
  single_write h w ->
  (forall q s, Inv s -> permitted q s -> Inv (exec q s)) ->
  Inv (db w) -> Inv (db (snd (h w))).
Proof.
  intros [Hsame | (q & _ & Hq & _ & Hdb)] Hexec Hinv.
  - now rewrite Hsame.
  - rewrite Hdb. now apply Hexec.
Qed.

Lemma serve_all_keeps {R} (app : R -> handler) (Inv : store -> Prop) :
  (forall r w, Inv (db w) -> Inv (db (snd (app r w)))) ->
  forall requests w,
    Inv (db w) -> Inv (db (snd (serve_all app requests w))).
Proof.
  intros Hstep. induction requests as [|r rest IH]; intros w Hinv; simpl.
  - assumption.
  - specialize (Hstep r w Hinv). destruct (app r w) as [res w1].
    specialize (IH w1 Hstep). now destruct (serve_all app rest w1).
Qed.

Lemma count_le_length user_id s :
  exec_SELECT_COUNT_FROM_locations user_id s <= length (locations s).
Proof. apply filter_length_le. Qed.

(** X1.  Served one after another, the requests of either file never leave
    a user with more than five locations, whatever the database refuses and
    whatever the provider answers, provided no user had more than five to
    begin with. *)
Theorem cap_never_exceeded :
  forall API_KEY axios_get db_fails
         (full_requests : list full_request)
         (test_requests : list test_request) w,
    within_cap (db w) ->
    within_cap (db (snd (serve_all (full_app API_KEY axios_get db_fails)
                           full_requests w)))
    /\ within_cap (db (snd (serve_all (test_app API_KEY axios_get db_fails)
                              test_requests w))).
Proof.
  intros API_KEY axios_get db_fails full_requests test_requests w Hcap.
  split; apply serve_all_keeps; try assumption; intros r w0 H0.
  - apply single_write_keeps; auto using full_app_single_write.
    intros q s. apply exec_within_cap.
  - apply single_write_keeps; auto using test_app_single_write.
    intros q s. apply exec_within_cap.
Qed.

Lemma ann_world_full_within_cap : within_cap (db ann_world_full).
Proof.
  intros user_id. etransitivity; [apply count_le_length|]. simpl. lia.
Defined.

Lemma cap_never_exceeded_witness :
  within_cap (db ann_world_full)
  /\ within_cap
       (db (snd (serve_all (full_app (Some "k") flaky_provider always_up)
                   [POST_location (Some "ann") mountain_view;
                    DELETE_location 2;
                    POST_location (Some "ann") palo_alto;
                    POST_location (Some "ann") tokyo]
                   ann_world_full)))
  /\ within_cap
       (db (snd (serve_all (test_app (Some "k") flaky_provider always_up)
                   [GET_location_add_zip "ann" "10001";
                    GET_user_create "bob";
                    GET_location_add_lat_lon "bob" (mkNum "0") (mkNum "10")]
                   ann_world_full))).
Proof.
  split; [exact ann_world_full_within_cap|].
  exact (@cap_never_exceeded (Some "k") flaky_provider always_up _ _
           ann_world_full ann_world_full_within_cap).
Defined.

(** X2.  Under any sequence of requests of either file the ids of the
    locations stay distinct and behind their sequence, and so do the ids of
    the users, and no two users get the same username. *)
Theorem keys_stay_distinct :
  forall API_KEY axios_get db_fails
         (full_requests : list full_request)
         (test_requests : list test_request) w,
    keys_distinct (db w) ->
    keys_distinct (db (snd (serve_all (full_app API_KEY axios_get db_fails)
                              full_requests w)))
    /\ keys_distinct
         (db (snd (serve_all (test_app API_KEY axios_get db_fails)
                     test_requests w))).
Proof.
  intros API_KEY axios_get db_fails full_requests test_requests w Hkeys.
  split; apply serve_all_keeps; try assumption; intros r w0 H0.
  - apply single_write_keeps; auto using full_app_single_write.
    intros q s Hs _. now apply exec_keys_distinct.
  - apply single_write_keeps; auto using test_app_single_write.
    intros q s Hs _. now apply exec_keys_distinct.
Qed.

Lemma empty_world_keys : keys_distinct (db empty_world).
Proof. repeat split; constructor. Defined.

Lemma keys_stay_distinct_witness :
  keys_distinct (db empty_world)
  /\ keys_distinct
       (db (snd (serve_all (full_app (Some "k") flaky_provider always_up)
                   [POST_user (Some "ann"); POST_user (Some "ann");
                    POST_location (Some "ann") mountain_view;
                    PUT_location 1 palo_alto]
                   empty_world)))
  /\ keys_distinct
       (db (snd (serve_all (test_app (Some "k") flaky_provider always_up)
                   [GET_user_create "ann"; GET_location_add_zip "ann" "10001";
                    GET_location_delete 1]
                   empty_world))).
Proof.
  split; [exact empty_world_keys|].
  exact (@keys_stay_distinct (Some "k") flaky_provider always_up _ _
           empty_world empty_world_keys).
Defined.

(** X3.  Under any sequence of requests of either file every stored
    location keeps belonging to a stored user: a location is only inserted
    for the id that the lookup of the username has just returned, an update
    never changes the owner, and no route removes a user. *)
Theorem owners_stay_stored :
  forall API_KEY axios_get db_fails
         (full_requests : list full_request)
         (test_requests : list test_request) w,
    owners_exist (db w) ->
    owners_exist (db (snd (serve_all (full_app API_KEY axios_get db_fails)
                             full_requests w)))
    /\ owners_exist
         (db (snd (serve_all (test_app API_KEY axios_get db_fails)
                     test_requests w))).
Proof.
  intros API_KEY axios_get db_fails full_requests test_requests w Hown.
  split; apply serve_all_keeps; try assumption; intros r w0 H0.
  - apply single_write_keeps; auto using full_app_single_write.
    intros q s. apply exec_owners_exist.
  - apply single_write_keeps; auto using test_app_single_write.
    intros q s. apply exec_owners_exist.
Qed.

Lemma empty_world_owners : owners_exist (db empty_world).
Proof. constructor. Defined.

Lemma owners_stay_stored_witness :
  owners_exist (db empty_world)
  /\ owners_exist
       (db (snd (serve_all (full_app (Some "k") flaky_provider always_up)
                   [POST_user (Some "ann");
                    POST_location (Some "ann") mountain_view;
                    POST_location (Some "bob") tokyo]
                   empty_world)))
  /\ owners_exist
       (db (snd (serve_all (test_app (Some "k") flaky_provider always_up)
                   [GET_user_create "ann"; GET_location_add_zip "ann" "10001"]
                   empty_world))).
Proof.
  split; [exact empty_world_owners|].
  exact (@owners_stay_stored (Some "k") flaky_provider always_up _ _
           empty_world empty_world_owners).
Defined.

(** ** Errors write nothing *)

(** X4.  A request of either file that is answered with any status other
    than 200 has left the database exactly as it was: the guards and the
    not-found and cap answers come before the write, and a write that the
    database refuses is the last statement of its route. *)
Theorem errors_write_nothing :
  forall API_KEY axios_get db_fails (r : full_request) (r' : test_request) w,
    (status (fst (full_app API_KEY axios_get db_fails r w)) <> 200 ->
     db (snd (full_app API_KEY axios_get db_fails r w)) = db w)
    /\ (status (fst (test_app API_KEY axios_get db_fails r' w)) <> 200 ->
        db (snd (test_app API_KEY axios_get db_fails r' w)) = db w).
Proof.
  intros API_KEY axios_get db_fails r r' w. split; intros Hstatus.
  - destruct (full_app_single_write API_KEY axios_get db_fails r w)
      as [Hsame | (q & _ & _ & H200 & _)]; [assumption | contradiction].
  - destruct (test_app_single_write API_KEY axios_get db_fails r' w)
      as [Hsame | (q & _ & _ & H200 & _)]; [assumption | contradiction].
Qed.

Lemma errors_write_nothing_witness :
  status (fst (full_app (Some "k") flaky_provider always_up
                 (POST_location (Some "ann") mountain_view) ann_world_full))
  <> 200
  /\ db (snd (full_app (Some "k") flaky_provider always_up
                (POST_location (Some "ann") mountain_view) ann_world_full))
     = db ann_world_full
  /\ status (fst (test_app (Some "k") flaky_provider always_down
                    (GET_location_delete 1) ann_world))
     <> 200
  /\ db (snd (test_app (Some "k") flaky_provider always_down
                (GET_location_delete 1) ann_world))
     = db ann_world.
Proof.
  assert (H1 : status (fst (full_app (Some "k") flaky_provider always_up
                              (POST_location (Some "ann") mountain_view)
                              ann_world_full)) <> 200)
    by (vm_compute; discriminate).
  assert (H2 : status (fst (test_app (Some "k") flaky_provider always_down
                              (GET_location_delete 1) ann_world)) <> 200)
    by (vm_compute; discriminate).
  destruct (@errors_write_nothing (Some "k") flaky_provider always_up
              (POST_location (Some "ann") mountain_view)
              (GET_location_delete 1) ann_world_full) as [Hfull _].
  destruct (@errors_write_nothing (Some "k") flaky_provider always_down
              (POST_location (Some "ann") mountain_view)
              (GET_location_delete 1) ann_world) as [_ Htest].
  exact (conj H1 (conj (Hfull H1) (conj H2 (Htest H2)))).
Defined.

(** ** What each route leaves alone *)

(** X5.  Whatever the database and the provider do, creating a user never
    touches the locations, adding, updating or deleting a location never
    touches the users, and listing locations or asking for the weather
    leaves the whole database as it was, in both files. *)
Theorem routes_keep_to_their_table :
  forall API_KEY axios_get db_fails (r : full_request) (r' : test_request) w,
    full_frame r (db w) (db (snd (full_app API_KEY axios_get db_fails r w)))
    /\ test_frame r' (db w)
         (db (snd (test_app API_KEY axios_get db_fails r' w))).
Proof.
  intros API_KEY axios_get db_fails r r' w. split.
  - destruct r; cbn [full_app full_frame];
      unfold Full.post_user, Full.get_locations, Full.post_location,
             Full.put_location, Full.delete_location, Full.get_weather;
      open_route; split_route; repeat split.
  - destruct r'; cbn [test_app test_frame];
      unfold Test.user_create, Test.location_list, Test.location_add_zip,
             Test.location_add_lat_lon, Test.location_update_zip,
             Test.location_update_lat_lon, Test.location_delete,
             Test.weather;
      open_route; split_route; repeat split.
Qed.

(** ** The two route sets agree *)

Section SameRoutes.

Variable API_KEY : option string.
Variable axios_get : nat -> string -> completion json.
Variable db_fails : nat -> statement -> bool.
Variable w : world.
Hypothesis Hwarm : dbInitialized w = true.

Lemma initDB_warm : Test.initDB db_fails w = (Some tt, w).
Proof. unfold Test.initDB. now rewrite Hwarm. Qed.

Ltac warm_route :=
  unfold try_catch; unfold bind at 1; rewrite initDB_warm.

Lemma user_create_is_post_user name :
  str_truthy name = true ->
  Test.user_create db_fails name w = Full.post_user db_fails (Some name) w.
Proof.
  intros Hname. unfold Test.user_create, Full.post_user.
  rewrite Hname. simpl. now warm_route.
Qed.

Lemma location_list_is_get_locations name :
  str_truthy name = true ->
  Test.location_list db_fails name w
  = Full.get_locations db_fails (Some name) w.
Proof.
  intros Hname. unfold Test.location_list, Full.get_locations.
  rewrite Hname. simpl. now warm_route.
Qed.

Lemma weather_is_get_weather name :
  str_truthy name = true ->
  Test.weather API_KEY axios_get db_fails name w
  = Full.get_weather API_KEY axios_get db_fails (Some name) w.
Proof.
  intros Hname. unfold Test.weather, Full.get_weather.
  rewrite Hname. simpl. now warm_route.
Qed.

Lemma location_add_zip_is_post_location name zip :
  str_truthy name = true -> zip <> "" ->
  Test.location_add_zip db_fails name zip w
  = Full.post_location db_fails (Some name) (zip_payload zip) w.
Proof.
  intros Hname Hzip. apply str_truthy_nonempty in Hzip.
  unfold Test.location_add_zip, Full.post_location, or_null.
  rewrite Hname. simpl. rewrite Hzip. simpl. now warm_route.
Qed.

Lemma location_add_lat_lon_is_post_location name lat lon :
  str_truthy name = true ->
  num_truthy lat = true -> num_truthy lon = true ->
  Test.location_add_lat_lon db_fails name lat lon w
  = Full.post_location db_fails (Some name) (coord_payload lat lon) w.
Proof.
  intros Hname Hlat Hlon.
  unfold Test.location_add_lat_lon, Full.post_location, or_null.
  rewrite Hname. simpl. rewrite Hlat, Hlon. simpl. now warm_route.
Qed.

Lemma location_update_zip_is_put_location id zip :
  zip <> "" ->
  Test.location_update_zip db_fails id zip w
  = Full.put_location db_fails id (zip_payload zip) w.
Proof.
  intros Hzip. apply str_truthy_nonempty in Hzip.
  unfold Test.location_update_zip, Full.put_location, or_null.
  simpl. rewrite Hzip. simpl. now warm_route.
Qed.

Lemma location_update_lat_lon_is_put_location id lat lon :
  num_truthy lat = true -> num_truthy lon = true ->
  Test.location_update_lat_lon db_fails id lat lon w
  = Full.put_location db_fails id (coord_payload lat lon) w.
Proof.
  intros Hlat Hlon.
  unfold Test.location_update_lat_lon, Full.put_location, or_null.
  simpl. rewrite Hlat, Hlon. simpl. now warm_route.
Qed.

Lemma location_delete_is_delete_location id :
  Test.location_delete db_fails id w = Full.delete_location db_fails id w.
Proof. unfold Test.location_delete, Full.delete_location. now warm_route. Qed.

End SameRoutes.

Lemma str_truthy_true_nonempty s : str_truthy s = true -> s <> "".
Proof. destruct s; [discriminate | discriminate]. Qed.

Lemma test_app_is_full_app API_KEY axios_get db_fails r w :
  dbInitialized w = true ->
  passes_full_guards r = true ->
  test_app API_KEY axios_get db_fails r w
  = full_app API_KEY axios_get db_fails (as_full_request r) w.
Proof.
  intros Hwarm Hr.
  destruct r; cbn [test_app full_app as_full_request passes_full_guards] in *;
    repeat match goal with
           | H : _ && _ = true |- _ => apply andb_true_iff in H as [? ?]
           end.
  - discriminate.
  - now apply user_create_is_post_user.
  - now apply location_list_is_get_locations.
  - apply location_add_zip_is_post_location; auto.
    now apply str_truthy_true_nonempty.
  - now apply location_add_lat_lon_is_post_location.
  - apply location_update_zip_is_put_location; auto.
    now apply str_truthy_true_nonempty.
  - now apply location_update_lat_lon_is_put_location.
  - now apply location_delete_is_delete_location.
  - now apply weather_is_get_weather.
Qed.

Lemma full_app_keeps_flag API_KEY axios_get db_fails r w :
  dbInitialized (snd (full_app API_KEY axios_get db_fails r w))
  = dbInitialized w.
Proof.
  destruct r; cbn [full_app];
    unfold Full.post_user, Full.get_locations, Full.post_location,
           Full.put_location, Full.delete_location, Full.get_weather;
    open_route; split_route; reflexivity.
Qed.

(** X6.  In a process that has completed [initDB], a session of test.js
    requests gets exactly the responses, and leaves exactly the database and
    the statement log, that full.js gives for the corresponding requests,
    whatever the database refuses and the provider answers, as long as each
    request carries what the guards of full.js demand (a non-empty username,
    a non-empty zip, non-zero coordinates). *)
Theorem route_sets_agree :
  forall API_KEY axios_get db_fails (requests : list test_request) w,
    dbInitialized w = true ->
    forallb passes_full_guards requests = true ->
    serve_all (test_app API_KEY axios_get db_fails) requests w
    = serve_all (full_app API_KEY axios_get db_fails)
        (map as_full_request requests) w.
Proof.
  intros API_KEY axios_get db_fails requests.
  induction requests as [|r rest IH]; intros w Hwarm Hall; simpl.
  - reflexivity.
  - simpl in Hall. apply andb_true_iff in Hall as [Hr Hrest].
    rewrite (test_app_is_full_app API_KEY axios_get db_fails r w Hwarm Hr).
    pose proof (full_app_keeps_flag API_KEY axios_get db_fails
                  (as_full_request r) w) as Hflag.
    destruct (full_app API_KEY axios_get db_fails (as_full_request r) w)
      as [res w1]. simpl in Hflag.
    rewrite IH; [reflexivity | congruence | assumption].
Qed.

Lemma route_sets_agree_witness :
  dbInitialized ann_world = true
  /\ forallb passes_full_guards
       [GET_user_create "bob"; GET_location_add_zip "bob" "10001";
        GET_location_update_lat_lon 4 (mkNum "51.5") (mkNum "-0.12");
        GET_api_weather "ann"; GET_location_delete 2;
        GET_location_list "ann"] = true
  /\ serve_all (test_app (Some "k") flaky_provider always_up)
       [GET_user_create "bob"; GET_location_add_zip "bob" "10001";
        GET_location_update_lat_lon 4 (mkNum "51.5") (mkNum "-0.12");
        GET_api_weather "ann"; GET_location_delete 2;
        GET_location_list "ann"] ann_world
     = serve_all (full_app (Some "k") flaky_provider always_up)
         [POST_user (Some "bob");
          POST_location (Some "bob") (zip_payload "10001");
          PUT_location 4 (coord_payload (mkNum "51.5") (mkNum "-0.12"));
          GET_weather (Some "ann"); DELETE_location 2;
          GET_locations (Some "ann")] ann_world.
Proof.
  refine (conj eq_refl (conj eq_refl _)).
  exact (@route_sets_agree (Some "k") flaky_provider always_up
           [GET_user_create "bob"; GET_location_add_zip "bob" "10001";
            GET_location_update_lat_lon 4 (mkNum "51.5") (mkNum "-0.12");
            GET_api_weather "ann"; GET_location_delete 2;
            GET_location_list "ann"] ann_world eq_refl eq_refl).
Defined.

(** Where the guards of full.js do not let the request through the two
    files part: test.js stores a location on the equator, full.js answers
    400 and stores nothing. *)
Example route_sets_part_at_zero :
  fst (test_app (Some "k") flaky_provider always_up
         (GET_location_add_lat_lon "ann" (mkNum "0") (mkNum "10")) ann_world)
  = res_json (Message "location added")
  /\ full_app (Some "k") flaky_provider always_up
       (as_full_request
          (GET_location_add_lat_lon "ann" (mkNum "0") (mkNum "10")))
       ann_world
     = (res_status_error 400 "Either zip or lat/lon required", ann_world).
Proof. split; reflexivity. Qed.

(** ** Unknown users and a database that is down *)

(** X7.  While the database answers, every route that takes a username
    answers an unknown one with 404 'user not found', writes nothing, and
    stops after the lookup of the user: it sends no count, no insert and no
    lookup of locations.  (In full.js the username is non-empty and the
    payload passes the guards, which come first.) *)
Theorem unknown_user_not_found :
  forall API_KEY axios_get db_fails name p zip lat lon w,
    accepts_all db_fails ->
    str_truthy name = true ->
    shape_rejected p = false ->
    exec_SELECT_id_FROM_users name (db w) = [] ->
    not_found (Full.get_locations db_fails (Some name)) name w
    /\ not_found (Full.post_location db_fails (Some name) p) name w
    /\ not_found (Full.get_weather API_KEY axios_get db_fails (Some name))
         name w
    /\ not_found (Test.location_list db_fails name) name w
    /\ not_found (Test.location_add_zip db_fails name zip) name w
    /\ not_found (Test.location_add_lat_lon db_fails name lat lon) name w
    /\ not_found (Test.weather API_KEY axios_get db_fails name) name w.
Proof.
  intros API_KEY axios_get db_fails name p zip lat lon w Hup Hname Hshape
         Huser.
  destruct (shape_accepted_guards p Hshape) as [Hg1 Hg2].
  unfold not_found.
  repeat match goal with |- _ /\ _ => split end;
    try (unfold Full.get_locations, Full.post_location, Full.get_weather;
         rewrite Hname; cbv zeta; rewrite ?Hg1, ?Hg2; simpl;
         run_queries Hup; simpl; rewrite Huser; simpl;
         solve [reflexivity | exists []; split; reflexivity]);
    unfold Test.location_list, Test.location_add_zip,
           Test.location_add_lat_lon, Test.weather, try_catch, bind;
    destruct (initDB_accepted w Hup) as (pre & -> & Hpre & _);
    rewrite (pool_query_accepted _ _ _ Hup); simpl; rewrite Huser; simpl;
    solve [reflexivity | exists pre; rewrite <- app_assoc; auto].
Qed.

Lemma unknown_user_not_found_witness :
  accepts_all always_up
  /\ str_truthy "bob" = true
  /\ shape_rejected mountain_view = false
  /\ exec_SELECT_id_FROM_users "bob" (db ann_world) = []
  /\ not_found (Full.get_locations always_up (Some "bob")) "bob" ann_world
  /\ not_found (Full.post_location always_up (Some "bob") mountain_view)
       "bob" ann_world
  /\ not_found (Full.get_weather (Some "k") flaky_provider always_up
                  (Some "bob")) "bob" ann_world
  /\ not_found (Test.location_list always_up "bob") "bob" ann_world
  /\ not_found (Test.location_add_zip always_up "bob" "10001") "bob"
       ann_world
  /\ not_found (Test.location_add_lat_lon always_up "bob" (mkNum "51.5")
                  (mkNum "-0.12")) "bob" ann_world
  /\ not_found (Test.weather (Some "k") flaky_provider always_up "bob")
       "bob" ann_world.
Proof.
  refine (conj always_up_accepts (conj eq_refl (conj eq_refl
            (conj eq_refl _)))).
  exact (@unknown_user_not_found (Some "k") flaky_provider always_up "bob"
           mountain_view "10001" (mkNum "51.5") (mkNum "-0.12") ann_world
           always_up_accepts eq_refl eq_refl eq_refl).
Defined.

(** Closes the branches in which a database that is down has answered. *)
Ltac down_contradiction Hdown :=
  match goal with
  | H : ?f _ _ = false |- _ => rewrite Hdown in H; discriminate H
  end.

(** X8.  While the database refuses every statement, every request of
    test.js whose route goes to the database is answered 500 'internal
    server error', and so is every request of full.js that its guards do
    not answer with status 400 first: the route gives up at its first
    statement, nothing is written, and the flag of [initDB] is left as it
    was.  [/api/hello], the one route that sends no statement, answers with
    its greeting all the same. *)
Theorem database_down :
  forall API_KEY axios_get db_fails (r : full_request) (r' : test_request) w,
    refuses_all db_fails ->
    (unavailable (full_app API_KEY axios_get db_fails r) w
     \/ (status (fst (full_app API_KEY axios_get db_fails r w)) = 400
         /\ snd (full_app API_KEY axios_get db_fails r w) = w))
    /\ (if uses_database r'
        then unavailable (test_app API_KEY axios_get db_fails r') w
        else greets (test_app API_KEY axios_get db_fails r') w).
Proof.
  intros API_KEY axios_get db_fails r r' w Hdown. unfold unavailable. split.
  - destruct r; cbn [full_app];
      unfold Full.post_user, Full.get_locations, Full.post_location,
             Full.put_location, Full.delete_location, Full.get_weather;
      open_route; split_route; try down_contradiction Hdown;
      solve [ right; split; reflexivity
            | left; repeat split; eexists; reflexivity ].
  - destruct r'; cbn [test_app uses_database]; [reflexivity | ..];
      unfold Test.user_create, Test.location_list, Test.location_add_zip,
             Test.location_add_lat_lon, Test.location_update_zip,
             Test.location_update_lat_lon, Test.location_delete,
             Test.weather;
      open_route; split_route; try down_contradiction Hdown;
      repeat split; cbn [fst snd db issued dbInitialized];
      first [reflexivity | congruence | eexists; reflexivity].
Qed.

Lemma always_down_refuses : refuses_all always_down.
Proof. intros k q. reflexivity. Qed.

Lemma database_down_witness :
  refuses_all always_down
  /\ (unavailable (full_app (Some "k") flaky_provider always_down
                     (GET_weather (Some "ann"))) ann_world
      \/ (status (fst (full_app (Some "k") flaky_provider always_down
                         (GET_weather (Some "ann")) ann_world)) = 400
          /\ snd (full_app (Some "k") flaky_provider always_down
                    (GET_weather (Some "ann")) ann_world) = ann_world))
  /\ unavailable (test_app (Some "k") flaky_provider always_down
                    (GET_user_create "bob")) ann_world_cold
  /\ greets (test_app (Some "k") flaky_provider always_down GET_api_hello)
       ann_world_cold.
Proof.
  split; [exact always_down_refuses|]. split; [|split].
  - exact (proj1 (@database_down (Some "k") flaky_provider always_down
                    (GET_weather (Some "ann")) (GET_user_create "bob")
                    ann_world always_down_refuses)).
  - exact (proj2 (@database_down (Some "k") flaky_provider always_down
                    (GET_weather (Some "ann")) (GET_user_create "bob")
                    ann_world_cold always_down_refuses)).
  - exact (proj2 (@database_down (Some "k") flaky_provider always_down
                    (GET_weather (Some "ann")) GET_api_hello
                    ann_world_cold always_down_refuses)).
Defined.

(** ** The flag of initDB in test.js *)

Ltac flatten_lengths :=
  repeat match goal with
         | H : context [length (_ ++ _)] |- _ =>
             rewrite length_app in H; cbn [length] in H
         end.

(** X9.  For every request of test.js, whatever the database does: once
    [dbInitialized] is set it stays set.  [/api/hello] never runs [initDB]:
    it leaves the flag, like all else, as it was.  For a request of any
    other route, in a process where the flag is not set: the request sets
    it exactly when the database accepts both CREATE TABLE statements,
    whatever becomes of the rest of the route; and when either is refused
    the request is answered 500, has sent nothing but statements of
    [initDB] and has written nothing, so that the next request runs
    [initDB] again. *)
Theorem initDB_flag :
  forall API_KEY axios_get db_fails (r : test_request) w,
    let h := test_app API_KEY axios_get db_fails r in
    let k := length (issued w) in
    (dbInitialized w = true -> dbInitialized (snd (h w)) = true)
    /\ (uses_database r = false -> greets h w)
    /\ (uses_database r = true ->
        dbInitialized w = false ->
        db_fails k CREATE_TABLE_users = false ->
        db_fails (k + 1) CREATE_TABLE_locations = false ->
        dbInitialized (snd (h w)) = true)
    /\ (uses_database r = true ->
        dbInitialized w = false ->
        db_fails k CREATE_TABLE_users = true
        \/ db_fails (k + 1) CREATE_TABLE_locations = true ->
        dbInitialized (snd (h w)) = false
        /\ fst (h w) = res_status_error 500 "internal server error"
        /\ db (snd (h w)) = db w
        /\ exists pre, issued (snd (h w)) = (issued w ++ pre)%list
                       /\ forallb is_schema_setup pre = true).
Proof.
  intros API_KEY axios_get db_fails r w h k. subst h k.
  split; [|split; [|split]].
  - intros Hwarm.
    destruct r; cbn [test_app]; [exact Hwarm | ..];
      unfold Test.user_create, Test.location_list, Test.location_add_zip,
             Test.location_add_lat_lon, Test.location_update_zip,
             Test.location_update_lat_lon, Test.location_delete,
             Test.weather;
      open_route; rewrite Hwarm; split_route; assumption.
  - intros Hhello. destruct r; try discriminate Hhello. reflexivity.
  - intros Hroute Hcold Husers Hlocations.
    destruct r; cbn [test_app]; [discriminate Hroute | ..];
      unfold Test.user_create, Test.location_list, Test.location_add_zip,
             Test.location_add_lat_lon, Test.location_update_zip,
             Test.location_update_lat_lon, Test.location_delete,
             Test.weather;
      open_route; rewrite Hcold; split_route; flatten_lengths;
      solve [reflexivity | congruence].
  - intros Hroute Hcold Hrefused.
    destruct r; cbn [test_app]; [discriminate Hroute | ..];
      unfold Test.user_create, Test.location_list, Test.location_add_zip,
             Test.location_add_lat_lon, Test.location_update_zip,
             Test.location_update_lat_lon, Test.location_delete,
             Test.weather;
      open_route; rewrite Hcold; split_route; flatten_lengths;
      try (exfalso; destruct Hrefused; congruence);
      cbn [fst snd db issued dbInitialized];
      (split; [first [reflexivity | assumption]|]);
      (split; [reflexivity|]); (split; [reflexivity|]);
      eexists; (split; [rewrite <- ?app_assoc; reflexivity | reflexivity]).
Qed.

Lemma initDB_flag_witness :
  dbInitialized ann_world = true
  /\ dbInitialized (snd (test_app (Some "k") flaky_provider always_down
                           (GET_location_delete 1) ann_world)) = true
  /\ uses_database GET_api_hello = false
  /\ greets (test_app (Some "k") flaky_provider always_up GET_api_hello)
       ann_world_cold
  /\ uses_database (GET_location_list "nobody") = true
  /\ dbInitialized ann_world_cold = false
  /\ always_up (length (issued ann_world_cold)) CREATE_TABLE_users = false
  /\ always_up (length (issued ann_world_cold) + 1) CREATE_TABLE_locations
     = false
  /\ dbInitialized (snd (test_app (Some "k") flaky_provider always_up
                           (GET_location_list "nobody") ann_world_cold))
     = true
  /\ uses_database (GET_user_create "bob") = true
  /\ (always_down (length (issued ann_world_cold)) CREATE_TABLE_users = true
      \/ always_down (length (issued ann_world_cold) + 1)
           CREATE_TABLE_locations = true)
  /\ dbInitialized (snd (test_app (Some "k") flaky_provider always_down
                           (GET_user_create "bob") ann_world_cold)) = false.
Proof.
  destruct (@initDB_flag (Some "k") flaky_provider always_down
              (GET_location_delete 1) ann_world) as (Hwarm & _).
  destruct (@initDB_flag (Some "k") flaky_provider always_up
              GET_api_hello ann_world_cold) as (_ & Hhello & _).
  destruct (@initDB_flag (Some "k") flaky_provider always_up
              (GET_location_list "nobody") ann_world_cold)
    as (_ & _ & Hset & _).
  destruct (@initDB_flag (Some "k") flaky_provider always_down
              (GET_user_create "bob") ann_world_cold)
    as (_ & _ & _ & Hkept).
  refine (conj eq_refl (conj (Hwarm eq_refl) (conj eq_refl
            (conj (Hhello eq_refl) (conj eq_refl (conj eq_refl
            (conj eq_refl (conj eq_refl
            (conj (Hset eq_refl eq_refl eq_refl eq_refl)
            (conj eq_refl (conj (or_introl eq_refl) _))))))))))).
  exact (proj1 (Hkept eq_refl eq_refl (or_introl eq_refl))).
Defined.

(** ** Deleting and updating by id *)

Lemma delete_removes id s : stored id (exec_DELETE_FROM_locations id s) = false.
Proof.
  unfold stored, exec_DELETE_FROM_locations. simpl.
  induction (locations s) as [|r l IH]; simpl; [reflexivity|].
  destruct (locations_id r =? id)%Z eqn:Hr; simpl; [exact IH|].
  now rewrite Hr, IH.
Qed.

Lemma delete_other id other s :
  other <> id ->
  row other (exec_DELETE_FROM_locations id s) = row other s.
Proof.
  intros Hne. unfold row, exec_DELETE_FROM_locations. simpl.
  induction (locations s) as [|r l IH]; simpl; [reflexivity|].
  destruct (locations_id r =? id)%Z eqn:Hr; simpl.
  - apply Z.eqb_eq in Hr.
    replace (locations_id r =? other)%Z with false
      by (symmetry; apply Z.eqb_neq; congruence).
    exact IH.
  - destruct (locations_id r =? other)%Z; [reflexivity | exact IH].
Qed.

Lemma find_filter_through {A} (g p : A -> bool) l :
  (forall x, g x = true -> p x = true) ->
  find g (filter p l) = find g l.
Proof.
  intros Hgp. induction l as [|x l IH]; simpl; [reflexivity|].
  destruct (g x) eqn:Hg.
  - rewrite (Hgp x Hg). simpl. now rewrite Hg.
  - destruct (p x); simpl; [now rewrite Hg | exact IH].
Qed.

Lemma find_none_all {A} (g : A -> bool) l :
  (forall x, In x l -> g x = false) -> find g l = None.
Proof.
  induction l as [|x l IH]; simpl; [reflexivity|].
  intros H. rewrite (H x (or_introl eq_refl)). apply IH.
  intros y Hy. apply H. now right.
Qed.

Lemma update_other zip lat lon id other s :
  other <> id ->
  row other (exec_UPDATE_locations zip lat lon id s) = row other s.
Proof.
  intros Hne. unfold row, exec_UPDATE_locations. simpl.
  rewrite find_app, find_filter_through.
  - destruct (find (fun r => (locations_id r =? other)%Z) (locations s));
      [reflexivity|].
    apply find_none_all. intros x Hx.
    apply in_map_iff in Hx as (y & <- & Hy).
    apply filter_In in Hy as [_ Hy]. apply Z.eqb_eq in Hy.
    rewrite locations_id_set_fields. apply Z.eqb_neq. congruence.
  - intros x Hx. apply Z.eqb_eq in Hx.
    apply negb_true_iff, Z.eqb_neq. congruence.
Qed.

Lemma update_keeps_ids zip lat lon id s :
  Permutation
    (map (fun r => (locations_id r, locations_user_id r))
         (locations (exec_UPDATE_locations zip lat lon id s)))
    (map (fun r => (locations_id r, locations_user_id r)) (locations s)).
Proof.
  unfold exec_UPDATE_locations. simpl.
  rewrite map_app, map_set_fields_pairs, <- map_app.
  apply Permutation_map, filter_split_permutation.
Qed.

(** X10.  While the database answers, a delete by id answers 'location
    deleted', leaves no location of that id, and leaves the location of
    every other id as it was, in both files. *)
Theorem delete_removes_only_that_id :
  forall db_fails id w,
    accepts_all db_fails ->
    deleted (Full.delete_location db_fails id) id w
    /\ deleted (Test.location_delete db_fails id) id w.
Proof.
  intros db_fails id w Hup. unfold deleted. split.
  - rewrite (@delete_location_run db_fails Hup id w). simpl.
    repeat split; [apply delete_removes | intros; now apply delete_other].
  - destruct (@location_delete_run db_fails Hup id w) as (pre & _ & ->).
    simpl.
    repeat split; [apply delete_removes | intros; now apply delete_other].
Qed.

Lemma delete_removes_only_that_id_witness :
  accepts_all always_up
  /\ deleted (Full.delete_location always_up 2) 2 ann_world
  /\ deleted (Test.location_delete always_up 2) 2 ann_world.
Proof.
  split; [exact always_up_accepts|].
  exact (@delete_removes_only_that_id always_up 2%Z ann_world
           always_up_accepts).
Defined.

(** After an update of the second of three locations the table lists it
    last. *)
Example update_lists_row_last :
  map locations_id
      (locations (db (snd (Full.put_location always_up 2 palo_alto
                             ann_world))))
  = [1%Z; 3%Z; 2%Z].
Proof. reflexivity. Qed.

(** X11.  While the database answers, an update by id leaves the location
    of every other id as it was, and the table holds the same ids, each with
    the owner it had, in whatever order it now lists them: no location is
    created, dropped or handed to another user; in test.js for every
    payload, in full.js for those that pass its guards. *)
Theorem update_touches_only_that_id :
  forall db_fails id p zip lat lon w,
    accepts_all db_fails ->
    shape_rejected p = false ->
    update_frame (Full.put_location db_fails id p) id w
    /\ update_frame (Test.location_update_zip db_fails id zip) id w
    /\ update_frame (Test.location_update_lat_lon db_fails id lat lon) id w.
Proof.
  intros db_fails id p zip lat lon w Hup Hshape. unfold update_frame.
  rewrite (@put_location_run db_fails Hup id p w Hshape).
  rewrite (@location_update_zip_db db_fails Hup id zip w).
  rewrite (@location_update_lat_lon_db db_fails Hup id lat lon w).
  cbn [snd db].
  repeat split; try (intros; now apply update_other);
    apply update_keeps_ids.
Qed.

Lemma update_touches_only_that_id_witness :
  accepts_all always_up
  /\ shape_rejected palo_alto = false
  /\ update_frame (Full.put_location always_up 2 palo_alto) 2 ann_world
  /\ update_frame (Test.location_update_zip always_up 2 "10001") 2 ann_world
  /\ update_frame
       (Test.location_update_lat_lon always_up 2 (mkNum "0") (mkNum "10"))
       2 ann_world.
Proof.
  refine (conj always_up_accepts (conj eq_refl _)).
  exact (@update_touches_only_that_id always_up 2%Z palo_alto "10001"
           (mkNum "0") (mkNum "10") ann_world always_up_accepts eq_refl).
Defined.

(** ** Adds and deletes together *)

Lemma delete_inserted user_id zip lat lon s :
  fresh_ids s ->
  locations (exec_DELETE_FROM_locations (locations_id_seq s)
               (exec_INSERT_locations user_id zip lat lon s))
  = locations s.
Proof.
  intros H. apply fresh_not_stored in H.
  unfold stored, exec_DELETE_FROM_locations, exec_INSERT_locations in *.
  simpl. rewrite filter_app. simpl. rewrite Z.eqb_refl. simpl.
  rewrite app_nil_r.
  induction (locations s) as [|r l IH]; simpl in *; [reflexivity|].
  apply orb_false_elim in H as [Hr Hl]. rewrite Hr. simpl.
  now rewrite IH.
Qed.

Lemma count_after_delete_stored id s r :
  row id s = Some r ->
  exec_SELECT_COUNT_FROM_locations (locations_user_id r)
    (exec_DELETE_FROM_locations id s)
  < exec_SELECT_COUNT_FROM_locations (locations_user_id r) s.
Proof.
  unfold row, exec_SELECT_COUNT_FROM_locations, exec_DELETE_FROM_locations.
  simpl.
  induction (locations s) as [|x l IH]; simpl; [discriminate|].
  destruct (locations_id x =? id)%Z eqn:Hx; simpl.
  - intros [= ->]. unfold owned_by at 2. rewrite Z.eqb_refl. simpl.
    pose proof (filter_length_le
                  (fun r0 => negb (locations_id r0 =? id)%Z) l) as Hle.
    pose proof (filter_length_le (owned_by (locations_user_id r))
                  (filter (fun r0 => negb (locations_id r0 =? id)%Z) l)).
    assert (Hmono :
              length (filter (owned_by (locations_user_id r))
                        (filter (fun r0 => negb (locations_id r0 =? id)%Z)
                           l))
              <= length (filter (owned_by (locations_user_id r)) l)).
    { clear. induction l as [|y l IH]; simpl; [lia|].
      destruct (negb (locations_id y =? id)%Z); simpl;
        destruct (owned_by (locations_user_id r) y); simpl; lia. }
    lia.
  - intros Hrow. specialize (IH Hrow).
    destruct (owned_by (locations_user_id r) x); simpl; lia.
Qed.

Section AddDelete.

Variable db_fails : nat -> statement -> bool.
Hypothesis Hup : accepts_all db_fails.

Lemma post_location_db name p user_id rest w :
  str_truthy name = true ->
  shape_rejected p = false ->
  exec_SELECT_id_FROM_users name (db w) = user_id :: rest ->
  exec_SELECT_COUNT_FROM_locations user_id (db w) <= 4 ->
  fst (Full.post_location db_fails (Some name) p w)
  = res_json (Message "location added")
  /\ db (snd (Full.post_location db_fails (Some name) p w))
     = exec_INSERT_locations user_id
         (or_null str_truthy (loc_zip p))
         (or_null num_truthy (loc_lat p))
         (or_null num_truthy (loc_lon p)) (db w).
Proof.
  intros Hname Hshape Huser Hcount.
  rewrite (@post_location_run db_fails Hup name p user_id rest w
             Hname Hshape Huser).
  replace (5 <=? exec_SELECT_COUNT_FROM_locations user_id (db w))%nat
    with false by (symmetry; apply Nat.leb_gt; lia).
  split; reflexivity.
Qed.

Lemma location_add_zip_added name zip user_id rest w :
  exec_SELECT_id_FROM_users name (db w) = user_id :: rest ->
  exec_SELECT_COUNT_FROM_locations user_id (db w) <= 4 ->
  fst (Test.location_add_zip db_fails name zip w)
  = res_json (Message "location added").
Proof.
  intros Huser Hcount.
  destruct (@location_add_zip_run db_fails Hup name zip user_id rest w
              Huser) as (pre & _ & ->).
  replace (5 <=? exec_SELECT_COUNT_FROM_locations user_id (db w))%nat
    with false by (symmetry; apply Nat.leb_gt; lia).
  reflexivity.
Qed.

Lemma location_add_lat_lon_db name lat lon user_id rest w :
  exec_SELECT_id_FROM_users name (db w) = user_id :: rest ->
  exec_SELECT_COUNT_FROM_locations user_id (db w) <= 4 ->
  fst (Test.location_add_lat_lon db_fails name lat lon w)
  = res_json (Message "location added")
  /\ db (snd (Test.location_add_lat_lon db_fails name lat lon w))
     = exec_INSERT_locations user_id None (Some lat) (Some lon) (db w).
Proof.
  intros Huser Hcount.
  destruct (@location_add_lat_lon_run db_fails Hup name lat lon user_id
              rest w Huser) as (pre & _ & ->).
  replace (5 <=? exec_SELECT_COUNT_FROM_locations user_id (db w))%nat
    with false by (symmetry; apply Nat.leb_gt; lia).
  split; reflexivity.
Qed.

Lemma delete_location_db id w :
  db (snd (Full.delete_location db_fails id w))
  = exec_DELETE_FROM_locations id (db w).
Proof. now rewrite (@delete_location_run db_fails Hup id w). Qed.

Lemma location_delete_db id w :
  db (snd (Test.location_delete db_fails id w))
  = exec_DELETE_FROM_locations id (db w).
Proof.
  now destruct (@location_delete_run db_fails Hup id w) as (pre & _ & ->).
Qed.

End AddDelete.

(** X12.  While the database answers, for a user below the cap and a table
    whose ids are behind the sequence: deleting the id that an add has just
    used gives back both tables exactly as they were before the add, in
    both files and for both kinds of location. *)
Theorem add_then_delete :
  forall db_fails name p zip lat lon user_id rest w,
    accepts_all db_fails ->
    exec_SELECT_id_FROM_users name (db w) = user_id :: rest ->
    exec_SELECT_COUNT_FROM_locations user_id (db w) <= 4 ->
    fresh_ids (db w) ->
    let id := locations_id_seq (db w) in
    (str_truthy name = true -> shape_rejected p = false ->
     undone (Full.post_location db_fails (Some name) p)
            (Full.delete_location db_fails id) w)
    /\ undone (Test.location_add_zip db_fails name zip)
              (Test.location_delete db_fails id) w
    /\ undone (Test.location_add_lat_lon db_fails name lat lon)
              (Test.location_delete db_fails id) w.
Proof.
  intros db_fails name p zip lat lon user_id rest w Hup Huser Hcount Hfresh
         id.
  unfold undone. split; [|split].
  - intros Hname Hshape.
    destruct (@post_location_db db_fails Hup name p user_id rest w
                Hname Hshape Huser Hcount) as [_ Hadd].
    rewrite (@delete_location_db db_fails Hup), Hadd.
    split; [now apply delete_inserted | reflexivity].
  - rewrite (@location_delete_db db_fails Hup).
    rewrite (@location_add_zip_db db_fails Hup name zip user_id rest w
               Huser Hcount).
    split; [now apply delete_inserted | reflexivity].
  - destruct (@location_add_lat_lon_db db_fails Hup name lat lon user_id
                rest w Huser Hcount) as [_ Hadd].
    rewrite (@location_delete_db db_fails Hup), Hadd.
    split; [now apply delete_inserted | reflexivity].
Qed.

Lemma add_then_delete_witness :
  accepts_all always_up
  /\ exec_SELECT_id_FROM_users "ann" (db ann_world) = [1%Z]
  /\ exec_SELECT_COUNT_FROM_locations 1 (db ann_world) <= 4
  /\ fresh_ids (db ann_world)
  /\ str_truthy "ann" = true
  /\ shape_rejected palo_alto = false
  /\ undone (Full.post_location always_up (Some "ann") palo_alto)
            (Full.delete_location always_up 4) ann_world
  /\ undone (Test.location_add_zip always_up "ann" "10001")
            (Test.location_delete always_up 4) ann_world.
Proof.
  assert (Hcount : exec_SELECT_COUNT_FROM_locations 1 (db ann_world) <= 4)
    by (vm_compute; lia).
  destruct (@add_then_delete always_up "ann" palo_alto "10001"
              (mkNum "51.5") (mkNum "-0.12") 1%Z [] ann_world
              always_up_accepts eq_refl Hcount ann_world_fresh)
    as (Hfull & Htest & _).
  exact (conj always_up_accepts (conj eq_refl (conj Hcount
           (conj ann_world_fresh (conj eq_refl (conj eq_refl
           (conj (Hfull eq_refl eq_refl) Htest))))))).
Defined.

(** X13.  While the database answers: once a location of a user has been
    deleted the user is below the cap again, so that for a user with five
    locations an add that would have been refused is carried out after the
    delete of one of them, in both files. *)
Theorem delete_frees_a_slot :
  forall db_fails name p zip id r rest w,
    accepts_all db_fails ->
    str_truthy name = true ->
    shape_rejected p = false ->
    exec_SELECT_id_FROM_users name (db w) = locations_user_id r :: rest ->
    row id (db w) = Some r ->
    exec_SELECT_COUNT_FROM_locations (locations_user_id r) (db w) <= 5 ->
    fst (Full.post_location db_fails (Some name) p
           (snd (Full.delete_location db_fails id w)))
    = res_json (Message "location added")
    /\ fst (Test.location_add_zip db_fails name zip
              (snd (Test.location_delete db_fails id w)))
       = res_json (Message "location added").
Proof.
  intros db_fails name p zip id r rest w Hup Hname Hshape Huser Hrow Hcap.
  pose proof (count_after_delete_stored id (db w) Hrow) as Hless.
  split.
  - eapply post_location_db; try eassumption.
    + rewrite (@delete_location_db db_fails Hup). exact Huser.
    + rewrite (@delete_location_db db_fails Hup). lia.
  - eapply location_add_zip_added; try eassumption.
    + rewrite (@location_delete_db db_fails Hup). exact Huser.
    + rewrite (@location_delete_db db_fails Hup). lia.
Qed.

Lemma delete_frees_a_slot_witness :
  accepts_all always_up
  /\ str_truthy "ann" = true
  /\ shape_rejected mountain_view = false
  /\ exec_SELECT_id_FROM_users "ann" (db ann_world_full) = [1%Z]
  /\ row 3 (db ann_world_full) = Some (ann_row 3 palo_alto)
  /\ exec_SELECT_COUNT_FROM_locations 1 (db ann_world_full) <= 5
  /\ fst (Full.post_location always_up (Some "ann") mountain_view
            ann_world_full)
     = res_status_error 400 "max 5 locations"
  /\ fst (Full.post_location always_up (Some "ann") mountain_view
            (snd (Full.delete_location always_up 3 ann_world_full)))
     = res_json (Message "location added").
Proof.
  assert (Hcap : exec_SELECT_COUNT_FROM_locations 1 (db ann_world_full) <= 5)
    by (vm_compute; lia).
  destruct (@delete_frees_a_slot always_up "ann" mountain_view "10001" 3%Z
              (ann_row 3 palo_alto) [] ann_world_full always_up_accepts
              eq_refl eq_refl eq_refl eq_refl Hcap) as [Hfull _].
  exact (conj always_up_accepts (conj eq_refl (conj eq_refl (conj eq_refl
           (conj eq_refl (conj Hcap (conj eq_refl Hfull))))))).
Defined.

(** ** Users and their own locations *)




(** X15.  While the database answers, what a user is shown is the stored
    locations of that user and no one else's: both list routes answer with
    the same rows, a row is among them exactly when it is stored with the
    id of the user, and both weather routes aggregate exactly the zip, lat
    and lon of those rows, in that order. *)
Theorem only_own_locations :
  forall API_KEY axios_get db_fails name user_id rest w,
    accepts_all db_fails ->
    str_truthy name = true ->
    exec_SELECT_id_FROM_users name (db w) = user_id :: rest ->
    exists rows data,
      fst (Full.get_locations db_fails (Some name) w) = res_json (Rows rows)
      /\ fst (Test.location_list db_fails name w) = res_json (Rows rows)
      /\ (forall r, In r rows <->
                    In r (locations (db w)) /\ locations_user_id r = user_id)
      /\ fst (Full.get_weather API_KEY axios_get db_fails (Some name) w)
         = res_json (Forecasts data)
      /\ fst (Test.weather API_KEY axios_get db_fails name w)
         = res_json (Forecasts data)
      /\ map location data = map project rows.
Proof.
  intros API_KEY axios_get db_fails name user_id rest w Hup Hname Huser.
  exists (exec_SELECT_all_FROM_locations user_id (db w)).
  exists (aggregate API_KEY axios_get
            (exec_SELECT_zip_lat_lon_FROM_locations user_id (db w))).
  split; [eapply get_locations_found; eassumption|].
  split; [eapply location_list_found; eassumption|].
  split.
  { intros r. unfold exec_SELECT_all_FROM_locations.
    rewrite filter_In. unfold owned_by. now rewrite Z.eqb_eq. }
  split; [eapply get_weather_found; eassumption|].
  split; [eapply weather_found; eassumption|].
  unfold aggregate. now rewrite weather_loop_locations.
Qed.

Lemma only_own_locations_witness :
  accepts_all always_up
  /\ str_truthy "ann" = true
  /\ exec_SELECT_id_FROM_users "ann" (db ann_world) = [1%Z]
  /\ exists rows data,
       fst (Full.get_locations always_up (Some "ann") ann_world)
       = res_json (Rows rows)
       /\ fst (Test.location_list always_up "ann" ann_world)
          = res_json (Rows rows)
       /\ (forall r, In r rows <->
                     In r (locations (db ann_world))
                     /\ locations_user_id r = 1%Z)
       /\ fst (Full.get_weather (Some "k") flaky_provider always_up
                 (Some "ann") ann_world) = res_json (Forecasts data)
       /\ fst (Test.weather (Some "k") flaky_provider always_up "ann"
                 ann_world) = res_json (Forecasts data)
       /\ map location data = map project rows.
Proof.
  refine (conj always_up_accepts (conj eq_refl (conj eq_refl _))).
  exact (@only_own_locations (Some "k") flaky_provider always_up "ann" 1%Z
           [] ann_world always_up_accepts eq_refl eq_refl).
Defined.

Lemma named_unique name us :
  NoDup (map users_username us) -> length (filter (named name) us) <= 1.
Proof.
  induction us as [|u us IH]; simpl; [lia|].
  intros H. inversion H as [|? ? Hu Hus]; subst.
  specialize (IH Hus).
  destruct (named name u) eqn:Hn; simpl; [|assumption].
  unfold named in Hn. apply String.eqb_eq in Hn.
  destruct (filter (named name) us) as [|v vs] eqn:Hf; simpl; [lia|].
  exfalso. apply Hu.
  assert (Hv : In v (filter (named name) us)) by (rewrite Hf; now left).
  apply filter_In in Hv as [Hin Hv]. unfold named in Hv.
  apply String.eqb_eq in Hv. rewrite Hn, <- Hv. now apply in_map.
Qed.

Lemma session_keeps_keys API_KEY axios_get db_fails
      (full_requests : list full_request)
      (test_requests : list test_request) w :
  keys_distinct (db w) ->
  keys_distinct (db (snd (serve_all (full_app API_KEY axios_get db_fails)
                            full_requests w)))
  /\ keys_distinct (db (snd (serve_all (test_app API_KEY axios_get db_fails)
                               test_requests w))).
Proof.
  intros Hkeys.
  split; apply serve_all_keeps; try assumption; intros r w0 H0.
  - apply single_write_keeps; auto using full_app_single_write.
    intros q s Hs _. now apply exec_keys_distinct.
  - apply single_write_keeps; auto using test_app_single_write.
    intros q s Hs _. now apply exec_keys_distinct.
Qed.

(** X16.  From a database whose keys and usernames are distinct, after any
    sequence of requests of either file the lookup of a username returns at
    most one row, so that the [rows[0]] every route goes on with is the only
    user of that name. *)
Theorem user_lookup_is_unambiguous :
  forall API_KEY axios_get db_fails
         (full_requests : list full_request)
         (test_requests : list test_request) name w,
    keys_distinct (db w) ->
    length (exec_SELECT_id_FROM_users name
              (db (snd (serve_all (full_app API_KEY axios_get db_fails)
                          full_requests w)))) <= 1
    /\ length (exec_SELECT_id_FROM_users name
                 (db (snd (serve_all (test_app API_KEY axios_get db_fails)
                             test_requests w)))) <= 1.
Proof.
  intros API_KEY axios_get db_fails full_requests test_requests name w Hkeys.
  destruct (session_keeps_keys API_KEY axios_get db_fails full_requests
              test_requests w Hkeys)
    as [(_ & _ & _ & _ & Hfull) (_ & _ & _ & _ & Htest)].
  unfold exec_SELECT_id_FROM_users. rewrite !length_map.
  split; now apply named_unique.
Qed.

Lemma ann_world_keys : keys_distinct (db ann_world).
Proof.
  unfold keys_distinct, fresh_ids. simpl.
  repeat split; repeat constructor; simpl; intuition discriminate.
Defined.

Lemma user_lookup_is_unambiguous_witness :
  keys_distinct (db ann_world)
  /\ length (exec_SELECT_id_FROM_users "bob"
               (db (snd (serve_all
                           (full_app (Some "k") flaky_provider always_up)
                           [POST_user (Some "bob"); POST_user (Some "bob")]
                           ann_world)))) <= 1
  /\ length (exec_SELECT_id_FROM_users "bob"
               (db (snd (serve_all
                           (test_app (Some "k") flaky_provider always_up)
                           [GET_user_create "bob"; GET_user_create "bob"]
                           ann_world)))) <= 1.
Proof.
  split; [exact ann_world_keys|].
  exact (@user_lookup_is_unambiguous (Some "k") flaky_provider always_up
           _ _ "bob" ann_world ann_world_keys).
Defined.

(** ** More on the aggregation loop *)

Section LoopFacts.

Variable API_KEY : option string.

Lemma forecast_step_ext get get' i l :
  (forall url, buildForecastUrl API_KEY l = Return url ->
               get i url = get' i url) ->
  forecast_step API_KEY get i l = forecast_step API_KEY get' i l.
Proof.
  intros Hsame. unfold forecast_step, forecast_try, bind_completion.
  destruct (buildForecastUrl API_KEY l) as [url|m]; [|reflexivity].
  now rewrite (Hsame url eq_refl).
Qed.

Lemma weather_loop_ext get get' rows : forall i data,
  (forall k l url,
      nth_error rows k = Some l ->
      buildForecastUrl API_KEY l = Return url ->
      get (i + k) url = get' (i + k) url) ->
  weather_loop API_KEY get i rows data
  = weather_loop API_KEY get' i rows data.
Proof.
  induction rows as [|l rest IH]; intros i data Hsame; simpl.
  - reflexivity.
  - rewrite (forecast_step_ext get get' i l).
    + apply IH. intros k l' url Hk Hurl.
      replace (S i + k) with (i + S k) by lia.
      exact (Hsame (S k) l' url Hk Hurl).
    + intros url Hurl. specialize (Hsame 0 l url eq_refl Hurl).
      now rewrite Nat.add_0_r in Hsame.
Qed.

Lemma weather_loop_shift get n rows : forall i data,
  weather_loop API_KEY get (n + i) rows data
  = weather_loop API_KEY (fun k => get (n + k)) i rows data.
Proof.
  induction rows as [|l rest IH]; intros i data; simpl.
  - reflexivity.
  - replace (S (n + i)) with (n + S i) by lia. rewrite IH. reflexivity.
Qed.

Lemma weather_loop_app get r1 r2 : forall i data,
  weather_loop API_KEY get i (r1 ++ r2) data
  = weather_loop API_KEY get (length r1 + i) r2
      (weather_loop API_KEY get i r1 data).
Proof.
  induction r1 as [|l rest IH]; intros i data; simpl.
  - reflexivity.
  - rewrite IH. now replace (length rest + S i) with (S (length rest + i))
      by lia.
Qed.

Lemma forecast_step_xor get i l :
  forecast_xor_error (forecast_step API_KEY get i l).
Proof.
  unfold forecast_xor_error, forecast_step, forecast_try, bind_completion.
  destruct (buildForecastUrl API_KEY l) as [url|m];
    [|right; repeat split; discriminate].
  destruct (get i url) as [data|m];
    [|right; repeat split; discriminate].
  destruct data; simpl;
    solve [ left; repeat split; discriminate
          | right; repeat split; discriminate ].
Qed.

Lemma weather_loop_xor get rows : forall i data,
  Forall forecast_xor_error data ->
  Forall forecast_xor_error (weather_loop API_KEY get i rows data).
Proof.
  induction rows as [|l rest IH]; intros i data Hdata; simpl.
  - assumption.
  - apply IH. apply Forall_app. split; [assumption|].
    constructor; [apply forecast_step_xor | constructor].
Qed.

End LoopFacts.

(** X17.  The provider is asked only for the request targets that
    [buildForecastUrl] returns, one per row: two providers that answer
    alike to the target of each row that has one give the same array, so a
    row without a usable zip or coordinates gets its 'Invalid location'
    element without the provider being consulted. *)
Theorem provider_asked_only_for_built_targets :
  forall API_KEY get get' rows,
    (forall k l url,
        nth_error rows k = Some l ->
        buildForecastUrl API_KEY l = Return url ->
        get k url = get' k url) ->
    aggregate API_KEY get rows = aggregate API_KEY get' rows.
Proof.
  intros API_KEY get get' rows Hsame. unfold aggregate.
  apply weather_loop_ext. exact Hsame.
Qed.

Lemma provider_asked_only_for_built_targets_witness :
  (forall k l url,
      nth_error [equator; mountain_view] k = Some l ->
      buildForecastUrl (Some "k") l = Return url ->
      flaky_provider k url = other_provider k url)
  /\ aggregate (Some "k") flaky_provider [equator; mountain_view]
     = aggregate (Some "k") other_provider [equator; mountain_view].
Proof.
  assert (Hsame : forall k l url,
             nth_error [equator; mountain_view] k = Some l ->
             buildForecastUrl (Some "k") l = Return url ->
             flaky_provider k url = other_provider k url).
  { intros k l url Hk Hurl. destruct k as [|k]; simpl in Hk.
    - injection Hk as <-. discriminate Hurl.
    - reflexivity. }
  split; [exact Hsame|].
  exact (@provider_asked_only_for_built_targets (Some "k") flaky_provider
           other_provider [equator; mountain_view] Hsame).
Defined.

(** X18.  The array for a list of rows is the array for its first part
    followed by the array for the rest, the provider taking up the count of
    requests where the first part left it; no element depends on the rows
    after it. *)
Theorem aggregate_app :
  forall API_KEY get r1 r2,
    aggregate API_KEY get (r1 ++ r2)
    = (aggregate API_KEY get r1
         ++ aggregate API_KEY (fun k => get (length r1 + k)) r2)%list.
Proof.
  intros API_KEY get r1 r2. unfold aggregate.
  rewrite weather_loop_app, weather_loop_shift, weather_loop_acc.
  reflexivity.
Qed.

(** X19.  Every element of the array is either a forecast with its place
    and no error, or an error with neither place nor forecast, whatever the
    rows and whatever the provider answers. *)
Theorem elements_are_forecast_xor_error :
  forall API_KEY get rows,
    Forall forecast_xor_error (aggregate API_KEY get rows).
Proof.
  intros API_KEY get rows. unfold aggregate.
  apply weather_loop_xor. constructor.
Qed.

(** ** The default country of a zip *)

Lemma index_cons (s1 : string) (b : ascii) (s2 : string) :
  index 0 s1 (String b s2)
  = if prefix s1 (String b s2) then Some 0
    else match index 0 s1 s2 with Some n => Some (S n) | None => None end.
Proof. reflexivity. Qed.

Lemma includes_after_append (zip rest : string) :
  includes (zip ++ "," ++ rest) "," = true.
Proof.
  unfold includes. induction zip as [|a zip IH].
  - change ("" ++ "," ++ rest) with (String "," rest).
    rewrite index_cons. now destruct rest.
  - change (String a zip ++ "," ++ rest)
      with (String a (zip ++ "," ++ rest)).
    rewrite index_cons.
    destruct (prefix "," (String a (zip ++ "," ++ rest))); [reflexivity|].
    destruct (index 0 "," (zip ++ "," ++ rest)); [reflexivity|].
    discriminate IH.
Qed.

(** X20.  The default country is applied once: for a non-empty zip without
    a comma, the zip with ",us" appended gets the same request target as
    the bare zip, so a stored "94040" and a stored "94040,us" are asked of
    the provider alike; and a zip that has a comma is sent as it is. *)
Theorem default_country_applied_once :
  forall API_KEY zip,
    zip <> "" ->
    (includes zip "," = false ->
     buildForecastUrl API_KEY (zip_payload (zip ++ ",us"))
     = buildForecastUrl API_KEY (zip_payload zip))
    /\ (includes zip "," = true ->
        buildForecastUrl API_KEY (zip_payload zip)
        = Return (zip_url API_KEY zip)).
Proof.
  intros API_KEY zip Hzip. split; intros Hcomma.
  - assert (Hzip' : zip ++ ",us" <> "") by (destruct zip; discriminate).
    rewrite (buildForecastUrl_zip API_KEY (zip_payload (zip ++ ",us"))
               eq_refl eq_refl Hzip').
    rewrite (buildForecastUrl_zip API_KEY (zip_payload zip)
               eq_refl eq_refl Hzip).
    pose proof (includes_after_append zip "us") as Hus.
    change ("," ++ "us") with ",us" in Hus.
    now rewrite Hcomma, Hus.
  - rewrite (buildForecastUrl_zip API_KEY (zip_payload zip)
               eq_refl eq_refl Hzip).
    now rewrite Hcomma.
Qed.

Lemma default_country_applied_once_witness :
  "94040" <> ""
  /\ includes "94040" "," = false
  /\ buildForecastUrl (Some "k") (zip_payload "94040,us")
     = buildForecastUrl (Some "k") (zip_payload "94040")
  /\ includes "94040,jp" "," = true
  /\ buildForecastUrl (Some "k") (zip_payload "94040,jp")
     = Return (zip_url (Some "k") "94040,jp").
Proof.
  assert (H1 : "94040" <> "") by discriminate.
  assert (H2 : "94040,jp" <> "") by discriminate.
  exact (conj H1 (conj eq_refl
           (conj (proj1 (@default_country_applied_once (Some "k") "94040" H1)
                    eq_refl)
           (conj eq_refl
              (proj2 (@default_country_applied_once (Some "k") "94040,jp"
                        H2) eq_refl))))).
Defined.

(** ** The guards of full.js *)

(** X21.  In full.js a request without a username, or with an empty one, is
    answered 400 'username required' by all four routes that take a
    username, before the payload is looked at; and a payload that the shape
    guards reject is answered with status 400 by the add and the update
    route.  In each case no statement is sent and nothing else changes. *)
Theorem guards_answer_before_any_query :
  forall API_KEY axios_get db_fails username name id p w,
    (truthy str_truthy username = false ->
     refused_by_guard (Full.post_user db_fails username)
       "username required" w
     /\ refused_by_guard (Full.get_locations db_fails username)
          "username required" w
     /\ refused_by_guard (Full.post_location db_fails username p)
          "username required" w
     /\ refused_by_guard
          (Full.get_weather API_KEY axios_get db_fails username)
          "username required" w)
    /\ (shape_rejected p = true ->
        (exists error,
            refused_by_guard (Full.put_location db_fails id p) error w)
        /\ (str_truthy name = true ->
            exists error,
              refused_by_guard
                (Full.post_location db_fails (Some name) p) error w)).
Proof.
  intros API_KEY axios_get db_fails username name id p w.
  unfold refused_by_guard. split.
  - intros Hnone.
    unfold Full.post_user, Full.get_locations, Full.post_location,
           Full.get_weather.
    destruct username as [s|]; simpl in Hnone; [rewrite Hnone|];
      repeat split.
  - intros Hshape. split.
    + eexists. now apply put_location_rejected.
    + intros Hname. eexists. now apply post_location_rejected.
Qed.

Lemma guards_answer_before_any_query_witness :
  truthy str_truthy (Some "") = false
  /\ refused_by_guard (Full.post_location always_up (Some "") equator)
       "username required" ann_world
  /\ shape_rejected equator = true
  /\ str_truthy "ann" = true
  /\ exists error,
       refused_by_guard (Full.post_location always_up (Some "ann") equator)
         error ann_world.
Proof.
  destruct (@guards_answer_before_any_query (Some "k") flaky_provider
              always_up (Some "") "ann" 1%Z equator ann_world)
    as [Hname Hshape].
  destruct (Hname eq_refl) as (_ & _ & Hpost & _).
  destruct (Hshape eq_refl) as [_ Hadd].
  exact (conj eq_refl (conj Hpost (conj eq_refl (conj eq_refl
           (Hadd eq_refl))))).
Defined.

(** ** Coordinates as they are stored *)

(** X22.  While the database answers, for a user below the cap: after the
    coordinate-mode add of test.js, listing the user's locations gives the
    rows listed before followed by one new row that holds the two
    coordinates and a NULL zip, for every pair, zero included.  The request
    target built from the new row is the coordinate one when both
    coordinates are truthy; for a zero or NaN coordinate the builder throws
    'Invalid location', the row having no zip. *)
Theorem coordinates_listed_after_add :
  forall API_KEY db_fails name lat lon user_id rest w,
    accepts_all db_fails ->
    exec_SELECT_id_FROM_users name (db w) = user_id :: rest ->
    exec_SELECT_COUNT_FROM_locations user_id (db w) <= 4 ->
    let added :=
      {| locations_id := locations_id_seq (db w);
         locations_user_id := user_id;
         locations_zip := None; locations_lat := Some lat;
         locations_lon := Some lon |} in
    let listed_before := exec_SELECT_all_FROM_locations user_id (db w) in
    fst (Test.location_list db_fails name
           (snd (Test.location_add_lat_lon db_fails name lat lon w)))
    = res_json (Rows (listed_before ++ [added])%list)
    /\ buildForecastUrl API_KEY (project added)
       = if num_truthy lat && num_truthy lon
         then Return (coord_url API_KEY (Some lat) (Some lon))
         else Throw "Invalid location".
Proof.
  intros API_KEY db_fails name lat lon user_id rest w Hup Huser Hcount
         added listed_before.
  split.
  - destruct (@location_add_lat_lon_db db_fails Hup name lat lon user_id
                rest w Huser Hcount) as [_ Hadd].
    rewrite (@location_list_found db_fails Hup name user_id rest _);
      rewrite Hadd; [|exact Huser].
    now rewrite select_all_after_insert.
  - unfold buildForecastUrl. simpl.
    now destruct (num_truthy lat && num_truthy lon).
Qed.

Lemma coordinates_listed_after_add_witness :
  accepts_all always_up
  /\ exec_SELECT_id_FROM_users "ann" (db ann_world) = [1%Z]
  /\ exec_SELECT_COUNT_FROM_locations 1 (db ann_world) <= 4
  /\ fst (Test.location_list always_up "ann"
            (snd (Test.location_add_lat_lon always_up "ann" (mkNum "0")
                    (mkNum "10") ann_world)))
     = res_json (Rows [ann_row 1 mountain_view; ann_row 2 tokyo;
                       ann_row 3 palo_alto; ann_row 4 equator])
  /\ buildForecastUrl (Some "k") (project (ann_row 4 equator))
     = Throw "Invalid location".
Proof.
  assert (Hcount : exec_SELECT_COUNT_FROM_locations 1 (db ann_world) <= 4)
    by (vm_compute; lia).
  destruct (@coordinates_listed_after_add (Some "k") always_up "ann"
              (mkNum "0") (mkNum "10") 1%Z [] ann_world always_up_accepts
              eq_refl Hcount) as [Hlist Hurl].
  exact (conj always_up_accepts (conj eq_refl (conj Hcount
           (conj Hlist Hurl)))).
Defined.

(** ** Startup of full.js *)

(** X23.  However the database answers, the start of full.js sends only the
    CREATE TABLE statements and changes no row.  The process exits with
    code 1 exactly when one of the two statements is refused (the second
    not being sent when the first is), or when, outside a serverless
    environment, [app.listen] throws.  Otherwise it listens exactly when
    neither VERCEL nor LAMBDA_TASK_ROOT is set to a non-empty value, on the
    text of PORT when that is set and non-empty and on 3001 when it is
    not. *)
Theorem startup_outcomes :
  forall db_fails listen_throws VERCEL LAMBDA_TASK_ROOT PORT w,
    let run :=
      Startup.main db_fails listen_throws VERCEL LAMBDA_TASK_ROOT PORT w in
    let k := length (issued w) in
    let serverless :=
      truthy str_truthy VERCEL || truthy str_truthy LAMBDA_TASK_ROOT in
    db (snd run) = db w
    /\ (exists pre, issued (snd run) = (issued w ++ pre)%list
                    /\ forallb is_schema_setup pre = true
                    /\ length pre <= 2)
    /\ (fst run = Startup.Exited 1 <->
        db_fails k CREATE_TABLE_users = true
        \/ db_fails (k + 1) CREATE_TABLE_locations = true
        \/ (serverless = false
            /\ listen_throws (Startup.port PORT) = true))
    /\ (db_fails k CREATE_TABLE_users = true ->
        issued (snd run) = (issued w ++ [CREATE_TABLE_users])%list)
    /\ (fst run <> Startup.Exited 1 ->
        fst run = if serverless then Startup.Loaded
                  else Startup.Listening
                         (if truthy str_truthy PORT
                          then match PORT with
                               | Some p => inl p
                               | None => inr 3001
                               end
                          else inr 3001)).
Proof.
  intros db_fails listen_throws VERCEL LAMBDA_TASK_ROOT PORT w run k
         serverless.
  subst run k serverless.
  assert (Hport :
            Startup.port PORT
            = if truthy str_truthy PORT
              then match PORT with Some p => inl p | None => inr 3001 end
              else inr 3001).
  { unfold Startup.port, or_null.
    destruct (truthy str_truthy PORT) eqn:HP; [|reflexivity].
    destruct PORT; [reflexivity | discriminate HP]. }
  rewrite <- Hport.
  unfold Startup.main, Startup.initDB. open_route.
  destruct (db_fails (length (issued w)) CREATE_TABLE_users) eqn:Husers;
    cbn [fst snd db issued].
  - repeat split; try tauto; try congruence.
    exists [CREATE_TABLE_users]. repeat split. simpl. lia.
  - rewrite length_app. cbn [length].
    destruct (db_fails (length (issued w) + 1) CREATE_TABLE_locations)
      eqn:Hlocations; cbn [fst snd db issued exec].
    + repeat split; try tauto; try congruence.
      exists [CREATE_TABLE_users; CREATE_TABLE_locations].
      rewrite <- app_assoc. repeat split. simpl. lia.
    + destruct (truthy str_truthy VERCEL),
               (truthy str_truthy LAMBDA_TASK_ROOT),
               (listen_throws (Startup.port PORT));
        cbn [negb andb orb fst snd db issued exec];
        (split; [reflexivity|]);
        (split;
         [exists [CREATE_TABLE_users; CREATE_TABLE_locations];
          rewrite <- app_assoc; repeat split; simpl; lia|]);
        (split;
         [split;
          [ try discriminate; intros _; right; right; split; reflexivity
          | intros [H | [H | [H1 H2]]]; congruence ]|]);
        (split; [congruence|]);
        first [reflexivity | intros H; now contradiction H].
Qed.

Lemma startup_outcomes_witness :
  always_down (length (issued empty_world)) CREATE_TABLE_users = true
  /\ fst (Startup.main always_down listens None None (Some "8080")
            empty_world)
     = Startup.Exited 1
  /\ issued (snd (Startup.main always_down listens None None (Some "8080")
                    empty_world))
     = [CREATE_TABLE_users]
  /\ fst (Startup.main always_up port_refused None None (Some "99999")
            empty_world)
     = Startup.Exited 1
  /\ fst (Startup.main always_up listens None None (Some "8080")
            empty_world)
     <> Startup.Exited 1
  /\ fst (Startup.main always_up listens None None (Some "8080")
            empty_world)
     = Startup.Listening (inl "8080")
  /\ fst (Startup.main always_up port_refused (Some "1") None None
            empty_world)
     = Startup.Loaded
  /\ fst (Startup.main always_up listens None (Some "") (Some "")
            empty_world)
     = Startup.Listening (inr 3001).
Proof.
  destruct (@startup_outcomes always_down listens None None (Some "8080")
              empty_world) as (_ & _ & Hexit & Hfirst & _).
  destruct (@startup_outcomes always_up port_refused None None
              (Some "99999") empty_world) as (_ & _ & Hthrows & _).
  destruct (@startup_outcomes always_up listens None None (Some "8080")
              empty_world) as (_ & _ & _ & _ & Hlisten).
  destruct (@startup_outcomes always_up port_refused (Some "1") None None
              empty_world) as (_ & _ & _ & _ & Hloaded).
  destruct (@startup_outcomes always_up listens None (Some "") (Some "")
              empty_world) as (_ & _ & _ & _ & Hdefault).
  assert (H1 : fst (Startup.main always_up listens None None (Some "8080")
                      empty_world) <> Startup.Exited 1)
    by (vm_compute; discriminate).
  assert (H2 : fst (Startup.main always_up port_refused (Some "1") None None
                      empty_world) <> Startup.Exited 1)
    by (vm_compute; discriminate).
  assert (H3 : fst (Startup.main always_up listens None (Some "") (Some "")
                      empty_world) <> Startup.Exited 1)
    by (vm_compute; discriminate).
  exact (conj eq_refl
           (conj (proj2 Hexit (or_introl eq_refl))
           (conj (Hfirst eq_refl)
           (conj (proj2 Hthrows
                    (or_intror (or_intror (conj eq_refl eq_refl))))
           (conj H1
           (conj (Hlisten H1)
           (conj (Hloaded H2) (Hdefault H3)))))))).
Defined.
